(** * Monte Carlo, NVT ensemble, hard spheres

    A shallow embedding of [python_examples/mc_nvt_hs.py] and the properties
    of its parameter handling, its observable calculation and its block /
    step / atom loops.

    Conventions of the embedding:
    - Python [int] is [Z]; Python and numpy floats are idealised as exact
      rationals [Q] (no rounding error, no infinities).  Equality of
      numbers is therefore [Qeq], written [==].  A quotient [r/box] and a
      product [r*box] are exact here, where numpy rounds each to a
      double: nothing below relies on one undoing the other.
    - Division of Python scalars by zero raises [ZeroDivisionError].
    - The script's globals that are assigned once ([nblock] ... [box]) are
      gathered in the record [globals]; those that are re-assigned live in
      the record [state], threaded through a state-and-exception monad.
    - Everything the script prints or hands to a collaborator module
      (averages_module, config_io_module) is appended to the trace [out].
    - The parameter input [nml] is the JSON object already parsed, as the
      list of its items.
    - The modules the script imports and that are not among the sources
      are variables of the section [Script]; [Module Spec] gives the
      hard-sphere modules and the move generator as the specification
      describes them. *)

From Stdlib Require Import ZArith QArith Qabs Qround Lia Lqa Bool.
From Stdlib Require Import String Ascii DecimalString.
From stdpp Require Import base list.

Local Open Scope Q_scope.

(** ** numpy: scalars and rows of three coordinates *)

Module Numpy.

(** Strict comparison [a < b] of two floats, as a boolean. *)
Definition Qltb (a b : Q) : bool :=
  match Qcompare a b with Lt => true | _ => false end.

(** [np.rint]: round to the nearest integer, halves to the even one. *)
Definition rint (x : Q) : Q :=
  let f := Qfloor x in
  inject_Z
    match Qcompare (x - inject_Z f) (1 # 2) with
    | Lt => f
    | Gt => (f + 1)%Z
    | Eq => if Z.even f then f else (f + 1)%Z
    end.

(** One row [r[i,:]] of the coordinate array. *)
Record vec : Type := Vec { vx : Q; vy : Q; vz : Q }.

Definition vmap (f : Q -> Q) (a : vec) : vec :=
  Vec (f (vx a)) (f (vy a)) (f (vz a)).

Definition vzip (f : Q -> Q -> Q) (a b : vec) : vec :=
  Vec (f (vx a) (vx b)) (f (vy a) (vy b)) (f (vz a) (vz b)).

Definition vadd : vec -> vec -> vec := vzip Qplus.
Definition vsub : vec -> vec -> vec := vzip Qminus.
Definition vmul_s (a : vec) (c : Q) : vec := vmap (fun x => x * c) a.
Definition vdiv_s (a : vec) (c : Q) : vec := vmap (fun x => x / c) a.

(** [a - np.rint ( a )] on a scalar and on a row. *)
Definition wrap1 (x : Q) : Q := x - rint x.
Definition wrap (a : vec) : vec := vmap wrap1 a.

(** [np.sum(a**2)] *)
Definition sum_sq (a : vec) : Q := vx a ^ 2 + vy a ^ 2 + vz a ^ 2.

(** Componentwise equality of rows as numbers. *)
Definition veq (a b : vec) : Prop :=
  vx a == vx b /\ vy a == vy b /\ vz a == vz b.

(** Every coordinate of the row satisfies [P]. *)
Definition vall (P : Q -> Prop) (a : vec) : Prop :=
  P (vx a) /\ P (vy a) /\ P (vz a).

End Numpy.
Import Numpy.


(** ** Python: exceptions, JSON values, [str], [zfill], [range] *)

Module Python.

Inductive exn : Type :=
| AssertionError (msg : string)
| ZeroDivisionError
| IndexError
| NameError (name : string)
| TypeError
| OSError (msg : string).

Inductive result (A : Type) : Type :=
| Ok (a : A)
| Raise (e : exn).
Arguments Ok {A} a.
Arguments Raise {A} e.

(** What [json.load] builds; an object is the list of its items in
    insertion order. *)
Local Unset Elimination Schemes.
Inductive json : Type :=
| JNull
| JBool (b : bool)
| JInt (z : Z)
| JFloat (q : Q)
| JString (s : string)
| JArray (l : list json)
| JObject (l : list (string * json)).
Local Set Elimination Schemes.

Inductive pytype : Type :=
| NoneType | bool_t | int_t | float_t | str_t | list_t | dict_t.

(** [type(val)] *)
Definition type (val : json) : pytype :=
  match val with
  | JNull => NoneType
  | JBool _ => bool_t
  | JInt _ => int_t
  | JFloat _ => float_t
  | JString _ => str_t
  | JArray _ => list_t
  | JObject _ => dict_t
  end.

Definition pytype_eqb (a b : pytype) : bool :=
  match a, b with
  | NoneType, NoneType | bool_t, bool_t | int_t, int_t | float_t, float_t
  | str_t, str_t | list_t, list_t | dict_t, dict_t => true
  | _, _ => false
  end.

(** [key in d] and [d[key]] on a dict given by its items. *)
Fixpoint dict_get (d : list (string * json)) (key : string) : option json :=
  match d with
  | [] => None
  | (k, v) :: d' => if String.eqb k key then Some v else dict_get d' key
  end.

Definition dict_mem (d : list (string * json)) (key : string) : bool :=
  match dict_get d key with Some _ => true | None => false end.

(** [a / b] on Python scalars. *)
Definition pydiv (a b : Q) : result Q :=
  if Qeq_bool b 0 then Raise ZeroDivisionError else Ok (a / b).

(** [str(i)] for an [int]. *)
Definition str (i : Z) : string := NilZero.string_of_int (Z.to_int i).

Fixpoint zeros (k : nat) : string :=
  match k with
  | O => EmptyString
  | S k' => String "0" (zeros k')
  end.

(** [s.zfill(width)]: pad on the left with zeros, after a leading sign. *)
Definition zfill (width : nat) (s : string) : string :=
  let pad := zeros (width - String.length s) in
  match s with
  | String c rest =>
      if (Ascii.eqb c "+" || Ascii.eqb c "-")%bool
      then String c (pad ++ rest)
      else (pad ++ s)
  | EmptyString => pad
  end%string.

(** [range(stop)] and [range(start, stop)] *)
Definition range (stop : Z) : list nat := seq 0 (Z.to_nat stop).
Definition range_from (start stop : Z) : list Z :=
  map (fun k => (start + Z.of_nat k)%Z) (seq 0 (Z.to_nat (stop - start))).

End Python.
Import Python.

(** ** The collaborator modules, seen from the script *)

(** averages_module.VariableType, with the two attributes the script sets
    ([method] keeps its default). *)
Record VariableType : Type := Variable_ { nam : string; val : Q }.

(** What mc_hs_fast_module and mc_hs_slow_module export to the script. *)
Record hs_module : Type := HsModule {
  overlap : Q -> list vec -> bool;
  overlap_1 : vec -> Q -> list vec -> bool;
  n_overlap : Q -> list vec -> Z
}.

(** Output of the run, in order: lines printed and calls made to the
    collaborators that print or write files. *)
Inductive event : Type :=
| Ev_print (line : string)
| Ev_print_int (label : string) (v : Z)
| Ev_print_float (label : string) (v : Q)
| Ev_warning (key : string)
| Ev_introduction (fast_module : bool)
| Ev_conclusion (fast_module : bool)
| Ev_write_variables (vars : list VariableType)
| Ev_run_begin (vars : list VariableType)
| Ev_blk_begin
| Ev_blk_add (vars : list VariableType)
| Ev_blk_end (blk : Z)
| Ev_run_end
| Ev_write_cnf_atoms (filename : string) (n_atoms : Z) (box_len : Q)
    (r_real : list vec).

(** The globals assigned once, before the simulation starts. *)
Record globals : Type := Globals {
  nblock : Z;
  nstep : Z;
  dr_max : Q;
  eps_box : Q;
  fast : bool;
  n : Z;
  box : Q
}.

Definition cnf_prefix : string := "cnf.".
Definition inp_tag : string := "inp".
Definition out_tag : string := "out".

(** Lines 89: the documented defaults. *)
Definition defaults : list (string * json) :=
  [ ("nblock", JInt 10); ("nstep", JInt 1000); ("dr_max", JFloat (15 # 100));
    ("eps_box", JFloat (5 # 1000)); ("fast", JBool true) ]%string.

(** ** The script *)

Section Script.

(** The state of numpy's global random generator. *)
Context {rng : Type}.

(** The globals that are re-assigned while the script runs, and the output
    produced so far. *)
Record state : Type := State {
  r : list vec;          (* positions, in box = 1 units *)
  moves : Z;
  m_ratio : option Q;    (* [None]: not assigned yet *)
  sav_tag : string;
  gen : rng;
  out : list event
}.

Definition set_r (v : list vec) (s : state) : state :=
  State v (moves s) (m_ratio s) (sav_tag s) (gen s) (out s).
Definition set_moves (v : Z) (s : state) : state :=
  State (r s) v (m_ratio s) (sav_tag s) (gen s) (out s).
Definition set_m_ratio (v : option Q) (s : state) : state :=
  State (r s) (moves s) v (sav_tag s) (gen s) (out s).
Definition set_sav_tag (v : string) (s : state) : state :=
  State (r s) (moves s) (m_ratio s) v (gen s) (out s).
Definition set_gen (v : rng) (s : state) : state :=
  State (r s) (moves s) (m_ratio s) (sav_tag s) v (out s).
Definition set_out (v : list event) (s : state) : state :=
  State (r s) (moves s) (m_ratio s) (sav_tag s) (gen s) v.

(** *** State and exceptions *)

Definition M (A : Type) : Type := state -> result A * state.

Definition ret {A} (a : A) : M A := fun s => (Ok a, s).

Definition bind {A B} (m : M A) (k : A -> M B) : M B :=
  fun s =>
    match m s with
    | (Ok a, s') => k a s'
    | (Raise e, s') => (Raise e, s')
    end.

Notation "x <- m ;; k" := (bind m (fun x => k))
  (at level 100, m at next level, k at level 200, right associativity).
Notation "m ;; k" := (bind m (fun _ => k))
  (at level 100, k at level 200, right associativity).

Definition raise {A} (e : exn) : M A := fun s => (Raise e, s).
Definition lift {A} (x : result A) : M A := fun s => (x, s).
Definition gets {A} (f : state -> A) : M A := fun s => (Ok (f s), s).
Definition modify (f : state -> state) : M unit := fun s => (Ok tt, f s).
Definition emit (e : event) : M unit :=
  modify (fun s => set_out (out s ++ [e]) s).

(** [assert cond, msg] *)
Definition assert_ (cond : bool) (msg : string) : M unit :=
  if cond then ret tt else raise (AssertionError msg).

(** [for x in l: body] *)
Fixpoint for_ {A} (l : list A) (body : A -> M unit) : M unit :=
  match l with
  | [] => ret tt
  | x :: l' => body x ;; for_ l' body
  end.

(** [a[i,:]] on the coordinate array. *)
Definition index (a : list vec) (i : nat) : M vec :=
  match a !! i with
  | Some v => ret v
  | None => raise IndexError
  end.

(** *** Collaborators *)

(** The two hard-sphere modules, maths_module's move generator (it draws
    from numpy's global generator) and config_io_module's reader. *)
Variable mc_hs_fast_module mc_hs_slow_module : hs_module.
Variable random_translate_vector : Q -> vec -> rng -> vec * rng.
Variable read_cnf_atoms : string -> result (Z * Q * list vec).

(** Lines 13-16 and 103-106: the module the names are imported from. *)
Definition hs (g : globals) : hs_module :=
  if fast g then mc_hs_fast_module else mc_hs_slow_module.

(** *** [calculate], lines 4-49 *)

Definition calculate (g : globals) (string : option String.string)
  : M (list VariableType) :=
  box' <- lift (pydiv (box g) (1 + eps_box g)) ;;
  cur <- gets r ;;
  vir <- lift (pydiv (inject_Z (n_overlap (hs g) box' cur)) (3 * eps_box g)) ;;
  let vol := box g ^ 3 in
  rho <- lift (pydiv (inject_Z (n g)) vol) ;;
  m_r <- match string with
         | None =>
             mr <- gets m_ratio ;;
             match mr with
             | Some v => ret (Variable_ "Move ratio" v)
             | None => raise (NameError "m_ratio")
             end
         | Some _ => ret (Variable_ "Move ratio" 0)
         end ;;
  pv <- lift (pydiv vir vol) ;;
  let p_f := Variable_ "P" (rho + pv) in
  let variables := [m_r; p_f] in
  match string with
  | Some line => emit (Ev_print line) ;; emit (Ev_write_variables (tail variables))
  | None => ret tt
  end ;;
  ret variables.

(** *** Lines 140-146: the trial move of atom [i]

    [r[i,:]] raises [IndexError] out of range, so that [np.delete(r,i,0)]
    and [r[i,:] = ri] below are always in range. *)

Definition move_atom (g : globals) (i : nat) : M unit :=
  max_step <- lift (pydiv (dr_max g) (box g)) ;;
  cur <- gets r ;;
  old <- index cur i ;;
  rnd <- gets gen ;;
  let (ri, rnd') := random_translate_vector max_step old rnd in
  modify (set_gen rnd') ;;
  let ri := wrap ri in
  let rj := delete i cur in
  if negb (overlap_1 (hs g) ri (box g) rj) then
    modify (set_r (<[i := ri]> cur)) ;;
    mv <- gets moves ;;
    modify (set_moves (mv + 1))
  else ret tt.

(** *** Lines 137-151: one step, a sweep over all atoms *)

Definition sweep (g : globals) : M unit :=
  for_ (range (n g)) (move_atom g).

Definition step (g : globals) : M unit :=
  modify (set_moves 0) ;;
  sweep g ;;
  mv <- gets moves ;;
  ratio <- lift (pydiv (inject_Z mv) (inject_Z (n g))) ;;
  modify (set_m_ratio (Some ratio)) ;;
  variables <- calculate g None ;;
  emit (Ev_blk_add variables).

(** *** Lines 133-155: one block *)

Definition block_tag (blk : Z) : string :=
  if (blk <? 1000)%Z then zfill 3 (str blk) else "sav".

(** Lines 155 and 162: [r*box], the positions in the units of the
    configuration file.  The product is exact here; numpy rounds it. *)
Definition scale (b : Q) (a : list vec) : list vec :=
  map (fun v => vmul_s v b) a.

Definition block (g : globals) (blk : Z) : M unit :=
  emit Ev_blk_begin ;;
  for_ (range (nstep g)) (fun _ => step g) ;;
  emit (Ev_blk_end blk) ;;
  modify (set_sav_tag (block_tag blk)) ;;
  tag <- gets sav_tag ;;
  cur <- gets r ;;
  emit (Ev_write_cnf_atoms (cnf_prefix ++ tag) (n g) (box g) (scale (box g) cur)).

(** *** Lines 89-101: parameters *)

(** Line 90-94: the loop over the items of [nml]. *)
Definition check_item (item : string * json) : M unit :=
  let (key, val) := item in
  match dict_get defaults key with
  | Some d => assert_ (pytype_eqb (type val) (type d)) (key ++ " has the wrong type")
  | None => emit (Ev_warning key)
  end.

(** [nml[key] if key in nml else defaults[key]] *)
Definition param (nml : list (string * json)) (key : string) : json :=
  match dict_get nml key with
  | Some v => v
  | None => match dict_get defaults key with Some d => d | None => JNull end
  end.

(** The script uses [nblock] and [nstep] as integers, [dr_max] and
    [eps_box] as floats, [fast] as a truth value; after the loop over the
    items no other type can come. *)
Definition as_int (v : json) : M Z :=
  match v with JInt z => ret z | _ => raise TypeError end.
Definition as_float (v : json) : M Q :=
  match v with JFloat q => ret q | _ => raise TypeError end.
Definition as_bool (v : json) : M bool :=
  match v with JBool b => ret b | _ => raise TypeError end.

(** The five parameters, before [n] and [box] are known. *)
Definition read_parameters (nml : list (string * json))
  : M (Z * Z * Q * Q * bool) :=
  for_ nml check_item ;;
  nblock <- as_int (param nml "nblock") ;;
  nstep <- as_int (param nml "nstep") ;;
  dr_max <- as_float (param nml "dr_max") ;;
  eps_box <- as_float (param nml "eps_box") ;;
  fast <- as_bool (param nml "fast") ;;
  ret (nblock, nstep, dr_max, eps_box, fast).

(** *** Lines 125-162: the simulation, once everything is read *)

Definition simulate (g : globals) : M unit :=
  cur <- gets r ;;
  assert_ (negb (overlap (hs g) (box g) cur)) "Overlap in initial configuration" ;;
  variables <- calculate g (Some "Initial values"%string) ;;
  emit (Ev_run_begin variables) ;;
  for_ (range_from 1 (nblock g + 1)) (block g) ;;
  emit Ev_run_end ;;
  variables <- calculate g (Some "Final values"%string) ;;
  cur <- gets r ;;
  assert_ (negb (overlap (hs g) (box g) cur)) "Overlap in final configuration" ;;
  emit (Ev_write_cnf_atoms (cnf_prefix ++ out_tag) (n g) (box g) (scale (box g) cur)) ;;
  emit (Ev_conclusion (fast g)).

(** *** Lines 103-123: imports, seeding, reading the configuration.
    [entropy] is what [np.random.seed()] picks up from the operating
    system. *)

Definition load_and_run (params : Z * Z * Q * Q * bool) (entropy : rng)
  : M unit :=
  let '(nblock, nstep, dr_max, eps_box, fast) := params in
  emit (Ev_introduction fast) ;;
  modify (set_gen entropy) ;;
  emit (Ev_print_int "Number of blocks" nblock) ;;
  emit (Ev_print_int "Number of steps per block" nstep) ;;
  emit (Ev_print_float "Maximum displacement" dr_max) ;;
  emit (Ev_print_float "Pressure scaling parameter" eps_box) ;;
  cnf <- lift (read_cnf_atoms (cnf_prefix ++ inp_tag)) ;;
  let '(n, box, r0) := cnf in
  emit (Ev_print_int "Number of particles" n) ;;
  emit (Ev_print_float "Box length" box) ;;
  density <- lift (pydiv (inject_Z n) (box ^ 3)) ;;
  emit (Ev_print_float "Density" density) ;;
  modify (set_r (map (fun v => vdiv_s v box) r0)) ;;
  cur <- gets r ;;
  modify (set_r (map wrap cur)) ;;
  simulate (Globals nblock nstep dr_max eps_box fast n box).

(** *** Lines 73-101, then the rest: the whole script *)

Definition main (nml : list (string * json)) (entropy : rng) : M unit :=
  modify (set_sav_tag "sav") ;;
  emit (Ev_print "mc_nvt_hs") ;;
  emit (Ev_print "Monte Carlo, constant-NVT ensemble") ;;
  params <- read_parameters nml ;;
  load_and_run params entropy.

End Script.

Arguments state : clear implicits.
Arguments M : clear implicits.

(** ** The collaborators that are not among the sources *)

Module Spec.

(** Modelled from the spec: GeometryKernel (4.1), used by the hard-sphere
    modules [mc_hs_fast_module] / [mc_hs_slow_module], which are missing.
    The difference of two points, each component shifted to the nearest
    representative by subtracting its rounded value. *)
Definition minimumImageDelta (a b : vec) : vec := wrap (vsub a b).

(** Modelled from the spec: GeometryKernel.squaredDistance (4.1), the
    squared magnitude of [minimumImageDelta]; missing with the hard-sphere
    modules. *)
Definition squaredDistance (a b : vec) : Q := sum_sq (minimumImageDelta a b).

(** Modelled from the spec: the pair test of OverlapDetector (4.2),
    [squaredDistance * box^2 < 1], of the missing hard-sphere modules. *)
Definition violates (box : Q) (a b : vec) : bool :=
  Qltb (squaredDistance a b * box ^ 2) 1.

(** Modelled from the spec: OverlapDetector.overlapsWithOne (4.2), the
    missing [overlap_1 ( ri, box, rj )]: the pair test of the trial
    position against every row of [rj], the array of all the other
    atoms. *)
Definition overlapsWithOne (trial : vec) (box : Q) (others : list vec) : bool :=
  existsb (violates box trial) others.

(** Modelled from the spec: OverlapDetector.overlapsAny (4.2), the missing
    [overlap ( box, r )]: the pair test on every unordered pair. *)
Fixpoint overlapsAny (box : Q) (positions : list vec) : bool :=
  match positions with
  | [] => false
  | p :: rest => overlapsWithOne p box rest || overlapsAny box rest
  end.

(** Modelled from the spec: OverlapDetector.countOverlaps (4.2), the
    missing [n_overlap ( box, r )]: the number of violating pairs. *)
Fixpoint countOverlaps (box : Q) (positions : list vec) : Z :=
  match positions with
  | [] => 0%Z
  | p :: rest =>
      (Z.of_nat (length (List.filter (violates box p) rest))
       + countOverlaps box rest)%Z
  end.

(** Modelled from the spec: the brute-force and the accelerated variant
    of the missing hard-sphere modules give identical verdicts (4.2), so
    one record stands for both. *)
Definition hard_spheres : hs_module :=
  HsModule overlapsAny overlapsWithOne countOverlaps.

(** Modelled from the spec: MoveSampler.proposeMove (4.3) up to its wrap,
    the missing [maths_module.random_translate_vector]:
    [position + maxStep * (2u - 1)] with one draw [u] per axis.  The wrap
    is line 141 of the script.  The generator is the sequence of the
    numbers it will draw. *)
Definition random_translate_vector (dr_max : Q) (old : vec) (g : nat -> Q)
  : vec * (nat -> Q) :=
  let zeta := vmap (fun u => 2 * u - 1) (Vec (g 0%nat) (g 1%nat) (g 2%nat)) in
  (vadd old (vmul_s zeta dr_max), fun k => g (3 + k)%nat).

End Spec.

(** ** What the claims speak about *)

(** The virial estimate: the overlap count of the configuration [cur] under
    the box contracted by [1/(1+eps_box)], divided by [3*eps_box]. *)
Definition vir (count : Q -> list vec -> Z) (g : globals) (cur : list vec) : Q :=
  inject_Z (count (box g / (1 + eps_box g)) cur) / (3 * eps_box g).

(** The ideal-gas term [n/box^3]. *)
Definition ideal_gas (g : globals) : Q := inject_Z (n g) / box g ^ 3.

(** Ideal-gas term plus virial over volume. *)
Definition pressure_estimate (count : Q -> list vec -> Z) (g : globals)
  (cur : list vec) : Q :=
  ideal_gas g + vir count g cur / box g ^ 3.


(** The move ratio [calculate] has to report: the sentinel when it is
    given a heading, the global [m_ratio] otherwise. *)
Definition reported_ratio {rng} (string : option String.string)
  (s : state rng) : option Q :=
  match string with
  | Some _ => Some 0
  | None => m_ratio s
  end.

(** The state [calculate] leaves behind: with a heading it prints the
    heading and the variables but the first, without it prints nothing. *)
Definition after_calculate {rng} (vars : list VariableType)
  (string : option String.string) (s : state rng) : state rng :=
  match string with
  | Some line =>
      set_out ((out s ++ [Ev_print line]) ++ [Ev_write_variables (tail vars)]) s
  | None => s
  end.

(** A configuration for the examples: two atoms, half a box diagonal
    apart, in a box of length 10, and the parameters left at their
    defaults. *)
Definition g_example : globals :=
  Globals 10 1000 (15 # 100) (5 # 1000) true 2 10.

Definition s_example : state (nat -> Q) :=
  State [Vec 0 0 0; Vec (1 # 2) (1 # 2) (1 # 2)] 0 None "sav"
    (fun _ => 1 # 3) [].

Section SweepNotions.
Context {rng : Type} (mc_hs_fast_module mc_hs_slow_module : hs_module).
Context (random_translate_vector : Q -> vec -> rng -> vec * rng).

(** The sweep up to, and without, atom [k]: the atoms [0 .. k-1] in this
    order. *)
Definition sweep_prefix (g : globals) (k : nat) : M rng unit :=
  for_ (seq 0 k)
    (move_atom mc_hs_fast_module mc_hs_slow_module random_translate_vector g).

(** The wrapped trial position proposed for an atom standing at [old]. *)
Definition trial (g : globals) (s : state rng) (old : vec) : vec :=
  wrap (fst (random_translate_vector (dr_max g / box g) old (gen s))).

(** The verdict of [overlap_1] on the trial position of atom [i] against
    all the other atoms. *)
Definition trial_overlaps (g : globals) (i : nat) (s : state rng) : bool :=
  match r s !! i with
  | Some old =>
      overlap_1 (hs mc_hs_fast_module mc_hs_slow_module g)
        (trial g s old) (box g) (delete i (r s))
  | None => true
  end.

(** The state after the trial move of atom [i], standing at [old], when
    nothing is raised: the generator has drawn; on acceptance the row and
    the counter are updated. *)
Definition after_move (g : globals) (i : nat) (s : state rng) (old : vec)
  : state rng :=
  let ri := trial g s old in
  let s1 := set_gen (snd (random_translate_vector (dr_max g / box g) old (gen s))) s in
  if overlap_1 (hs mc_hs_fast_module mc_hs_slow_module g) ri (box g)
       (delete i (r s))
  then s1
  else set_moves (moves s + 1) (set_r (<[i := ri]> (r s)) s1).

(** The number of atoms of a sweep started in [s] whose trial move is
    accepted, each judged in the state the sweep has reached by then. *)
Definition accepted_at (g : globals) (s : state rng) (i : nat) : bool :=
  match sweep_prefix g i s with
  | (Ok _, si) => negb (trial_overlaps g i si)
  | (Raise _, _) => false
  end.

Definition accepted_moves (g : globals) (s : state rng) : nat :=
  length (List.filter (accepted_at g s) (range (n g))).

(** The state after a step that returns. *)
Definition after_step (g : globals) (s1 : state rng) : state rng :=
  let ratio := inject_Z (moves s1) / inject_Z (n g) in
  set_out
    (out s1 ++
     [Ev_blk_add
        [Variable_ "Move ratio" ratio;
         Variable_ "P"
           (pressure_estimate (n_overlap (hs mc_hs_fast_module mc_hs_slow_module g)) g (r s1))]])
    (set_m_ratio (Some ratio) s1).

End SweepNotions.

(** *** Parameter input *)

(** The item names a documented parameter and gives it a value of another
    type than the default's. *)
Definition mistyped (item : string * json) : bool :=
  match dict_get defaults (fst item) with
  | Some d => negb (pytype_eqb (type (snd item)) (type d))
  | None => false
  end.

(** The keys of the input that are not documented parameters, in the order
    of the input. *)
Definition unknown_keys (nml : list (string * json)) : list string :=
  List.filter (fun key => negb (dict_mem defaults key)) (map fst nml).

(** What the script has printed when the parameters are checked. *)
Definition banner : list event :=
  [Ev_print "mc_nvt_hs"; Ev_print "Monte Carlo, constant-NVT ensemble"].

(** The state in which the parameter check of the input [nml] ends, or is
    abandoned, after warning about the keys [ks]. *)
Definition checked {rng} (ks : list string) (s : state rng) : state rng :=
  set_out ((out s ++ banner) ++ map Ev_warning ks) (set_sav_tag "sav" s).

(** Inputs for the examples: a parameter file with one undocumented key,
    one with a mistyped value, and a reader that finds the two atoms of
    [s_example], in real units, in every file. *)
Definition nml_example : list (string * json) :=
  [("nblock", JInt 2); ("nstep", JInt 1); ("foo", JNull)]%string.

Definition nml_mistyped : list (string * json) :=
  [("foo", JNull); ("nstep", JFloat 1); ("nblock", JInt 2)]%string.

Definition reader_example (filename : string) : result (Z * Q * list vec) :=
  Ok (2%Z, 10, [Vec 0 0 0; Vec 5 5 5]).

Definition s_initial : state (nat -> Q) :=
  State [] 0 None "" (fun _ => 1 # 3) [].

(** *** Loading *)

(** Lines 121-122: the positions read, in box units and wrapped.  The
    quotient [r/box] is exact here; numpy rounds it. *)
Definition loaded_positions (box0 : Q) (r0 : list vec) : list vec :=
  map wrap (map (fun v => vdiv_s v box0) r0).

(** What lines 107-120 print. *)
Definition load_trace (params : Z * Z * Q * Q * bool) (n0 : Z) (box0 : Q)
  : list event :=
  let '(nblock, nstep, dr_max, eps_box, fast) := params in
  [ Ev_introduction fast;
    Ev_print_int "Number of blocks" nblock;
    Ev_print_int "Number of steps per block" nstep;
    Ev_print_float "Maximum displacement" dr_max;
    Ev_print_float "Pressure scaling parameter" eps_box;
    Ev_print_int "Number of particles" n0;
    Ev_print_float "Box length" box0;
    Ev_print_float "Density" (inject_Z n0 / box0 ^ 3) ].

(** The state when the configuration [(n0, box0, r0)] is loaded. *)
Definition loaded {rng} (params : Z * Z * Q * Q * bool) (entropy : rng)
  (n0 : Z) (box0 : Q) (r0 : list vec) (s : state rng) : state rng :=
  set_r (loaded_positions box0 r0)
    (set_gen entropy (set_out (out s ++ load_trace params n0 box0) s)).

(** The globals once the configuration is loaded. *)
Definition globals_of (params : Z * Z * Q * Q * bool) (n0 : Z) (box0 : Q)
  : globals :=
  let '(nblock, nstep, dr_max, eps_box, fast) := params in
  Globals nblock nstep dr_max eps_box fast n0 box0.

(** Events of the simulation proper: samples, block ends, checkpoints. *)
Definition is_simulation_event (e : event) : bool :=
  match e with
  | Ev_run_begin _ | Ev_blk_begin | Ev_blk_add _ | Ev_blk_end _ | Ev_run_end
  | Ev_write_cnf_atoms _ _ _ _ | Ev_write_variables _ | Ev_conclusion _ => true
  | _ => false
  end.

(** A reader that finds two atoms at opposite corners of the box of
    length 10, in real units. *)
Definition reader_corners (filename : string) : result (Z * Q * list vec) :=
  Ok (2%Z, 10, [Vec (-5) (-5) (-5); Vec 5 5 5]).

(** *** Checkpoints *)

Definition is_blk_add (e : event) : bool :=
  match e with Ev_blk_add _ => true | _ => false end.

(** The decimal digit [d], for [0 <= d <= 9]. *)
Definition digit (d : Z) : ascii := ascii_of_nat (48 + Z.to_nat d).

(** The block index written with three decimal digits. *)
Definition zero_padded3 (blk : Z) : string :=
  String (digit (blk / 100))
    (String (digit (blk / 10 mod 10))
       (String (digit (blk mod 10)) EmptyString)).

(** The tag of the checkpoint of block [blk]: the index zero-padded to
    width 3 below 1000, the fixed tag from there on. *)
Definition checkpoint_tag (blk : Z) : string :=
  if (blk <? 1000)%Z then zero_padded3 blk else "sav".

(** The checkpoint of the configuration [cur], in box units, under [tag]:
    the positions go out in real units. *)
Definition checkpoint (g : globals) (tag : string) (cur : list vec) : event :=
  Ev_write_cnf_atoms (cnf_prefix ++ tag) (n g) (box g)
    (map (fun v => Vec (vx v * box g) (vy v * box g) (vz v * box g)) cur).

(** Block ends and checkpoints, picked from a trace. *)
Definition is_checkpointing (e : event) : bool :=
  match e with
  | Ev_blk_end _ | Ev_write_cnf_atoms _ _ _ _ => true
  | _ => false
  end.

(** What the blocks [blks], ending in the configurations [cfgs], leave in
    the trace: each block closed, then checkpointed. *)
Fixpoint block_checkpoints (g : globals) (blks : list Z) (cfgs : list (list vec))
  : list event :=
  match blks, cfgs with
  | blk :: blks', cur :: cfgs' =>
      Ev_blk_end blk :: checkpoint g (checkpoint_tag blk) cur
      :: block_checkpoints g blks' cfgs'
  | _, _ => []
  end.

(** *** The run *)

Section RunNotions.
Context (mc_hs_fast_module mc_hs_slow_module : hs_module).

(** The variables [calculate] returns under a heading, for the
    configuration [cur]. *)
Definition headed_variables (g : globals) (cur : list vec) : list VariableType :=
  [ Variable_ "Move ratio" 0;
    Variable_ "P"
      (pressure_estimate
         (n_overlap (hs mc_hs_fast_module mc_hs_slow_module g)) g cur) ].

(** What lines 126-129 print, before the first block. *)
Definition start_trace (g : globals) (cur : list vec) : list event :=
  [ Ev_print "Initial values";
    Ev_write_variables (tail (headed_variables g cur));
    Ev_run_begin (headed_variables g cur) ].

(** What lines 157-163 print and write, after the last block. *)
Definition finish_trace (g : globals) (cur : list vec) : list event :=
  [ Ev_run_end;
    Ev_print "Final values";
    Ev_write_variables (tail (headed_variables g cur));
    checkpoint g out_tag cur;
    Ev_conclusion (fast g) ].

End RunNotions.

(** *** Reasoning about runs *)

(** [wp m Post Exc s]: run from [s], the computation [m] either returns a
    value and a state satisfying [Post] or raises an exception in a state
    satisfying [Exc]. *)
Definition wp {rng A} (m : M rng A) (Post : A -> state rng -> Prop)
  (Exc : exn -> state rng -> Prop) (s : state rng) : Prop :=
  match m s with
  | (Ok a, s') => Post a s'
  | (Raise e, s') => Exc e s'
  end.

(** *** Ranges of the coordinates *)

(** The half-open interval [-0.5, 0.5). *)
Definition in_half_open (x : Q) : Prop := - (1 # 2) <= x /\ x < 1 # 2.

(** The closed interval [-0.5, 0.5]. *)
Definition in_closed (x : Q) : Prop := - (1 # 2) <= x /\ x <= 1 # 2.

(** A parameter file asking for no block at all: the run only loads,
    reports and writes the configuration. *)
Definition nml_no_block : list (string * json) := [("nblock", JInt 0)]%string.

(** *** Overlaps *)

(** Two positions whose minimum-image separation, in real units, is below
    the sphere diameter 1; compared by squares, as the modules do. *)
Definition too_close (box : Q) (a b : vec) : Prop :=
  Spec.squaredDistance a b * box ^ 2 < 1.

(** No pair of distinct atoms of the configuration is too close. *)
Definition no_overlap (box : Q) (cur : list vec) : Prop :=
  forall i j a b,
    i <> j -> cur !! i = Some a -> cur !! j = Some b -> ~ too_close box a b.

(** The script with the hard-sphere modules of the specification. *)
Definition HS : hs_module := Spec.hard_spheres.

(** The exception is a failed [assert]. *)
Definition is_assertion_error (e : exn) : Prop :=
  match e with AssertionError _ => True | _ => False end.

(** Globals for the examples: two blocks of one step each. *)
Definition g_short : globals :=
  Globals 2 1 (15 # 100) (5 # 1000) true 2 10.

(** *** The scenario without displacement *)

(** A sample handed to [blk_add] with move ratio 1 and pressure [p]; any
    other event passes. *)
Definition null_sample (p : Q) (e : event) : Prop :=
  match e with
  | Ev_blk_add vars =>
      exists m_r p_f, vars = [m_r; p_f] /\ val m_r == 1 /\ val p_f == p
  | _ => True
  end.


(** The state of a run without displacement: the positions are the
    numbers [r0], and what has been added to the trace [tr0] has only
    samples with move ratio 1 and pressure [p]. *)
Definition null_run {rng} (r0 : list vec) (tr0 : list event) (p : Q)
  (t : state rng) : Prop :=
  Forall2 veq (r t) r0 /\
  exists new, out t = tr0 ++ new /\ Forall (null_sample p) new.


(** A configuration file may give any number for the box length: here
    -10, with two atoms a tenth of the box apart along the first axis,
    which is one diameter, and less than one in the contracted box. *)
Definition g_negative_box : globals :=
  Globals 10 1000 (15 # 100) (5 # 1000) true 2 (-10).

Definition s_close : state (nat -> Q) :=
  State [Vec 0 0 0; Vec (1 # 10) 0 0] 0 None "sav" (fun _ => 1 # 3) [].

(** ** Further notions: the rest of the script's behaviour *)

(** The event is a call of [write_cnf_atoms] on the file [f]. *)
Definition writes_to (f : string) (e : event) : Prop :=
  match e with
  | Ev_write_cnf_atoms f' _ _ _ => f' = f
  | _ => False
  end.

Definition is_write (e : event) : bool :=
  match e with
  | Ev_write_cnf_atoms _ _ _ _ => true
  | _ => false
  end.

(** [int(tag)] for a string of decimal digits, nothing for another
    string. *)
Definition int_of_tag (tag : string) : option Z :=
  option_map Z.of_uint (NilEmpty.uint_of_string tag).

(** A state with two rows but three atoms announced. *)
Definition g_three : globals :=
  Globals 2 1 (15 # 100) (5 # 1000) true 3 10.

(** Globals of a run without block, and of a run of two blocks without
    step. *)
Definition g_no_block : globals :=
  Globals 0 5 (15 # 100) (5 # 1000) true 2 10.

Definition g_no_step : globals :=
  Globals 2 0 (15 # 100) (5 # 1000) true 2 10.

(** A parameter file of undocumented keys only, and a reader that fails. *)
Definition nml_unknown : list (string * json) :=
  [("nblocks", JInt 3); ("seed", JInt 1)]%string.

Definition reader_missing (filename : string) : result (Z * Q * list vec) :=
  Raise (OSError "cnf.inp").

(** Two atoms in contact along the first axis, and a generator whose
    draws push each towards the other. *)
Definition s_contact : state (nat -> Q) :=
  State [Vec (1 # 10) 0 0; Vec 0 0 0] 0 None "sav"
    (fun k => if (k <? 3)%nat then 1 # 3 else 2 # 3) [].

(** A write, if the event is one, is the checkpoint of a block. *)
Definition block_write_only (e : event) : Prop :=
  match e with
  | Ev_write_cnf_atoms f _ _ _ =>
      exists blk, (0 <= blk)%Z /\ f = (cnf_prefix ++ block_tag blk)%string
  | _ => True
  end.

(** The coordinate lies in the cell of edge [|b|] centred at the origin. *)
Definition in_cell (b x : Q) : Prop :=
  - (Qabs b / 2) <= x /\ x <= Qabs b / 2.

(** The configuration the event writes, if it writes one, lies in the
    cell of the box written with it. *)
Definition written_in_cell (e : event) : Prop :=
  match e with
  | Ev_write_cnf_atoms _ _ b rows => Forall (vall (in_cell b)) rows
  | _ => True
  end.

(** * Properties *)

(** ** Rounding and wrapping *)

Section RintFacts.

Lemma Qltb_lt a b : Qltb a b = true <-> a < b.
Proof.
  unfold Qltb. rewrite Qlt_alt. destruct (Qcompare a b); split; congruence.
Qed.

Lemma Qltb_ge a b : Qltb a b = false <-> b <= a.
Proof.
  unfold Qltb.
  destruct (Qcompare_spec a b) as [E|L|G]; split; intros H;
    try reflexivity; try discriminate; lra.
Qed.


Lemma rint_comp x y : x == y -> rint x = rint y.
Proof.
  intros H. unfold rint. rewrite (Qfloor_comp _ _ H).
  now rewrite H.
Qed.

(** The rounded value is never further than one half from the argument. *)
Lemma rint_near x : - (1 # 2) <= x - rint x <= 1 # 2.
Proof.
  unfold rint.
  pose proof (Qfloor_le x) as Hlo. pose proof (Qlt_floor x) as Hhi.
  rewrite inject_Z_plus in Hhi. change (inject_Z 1) with 1 in Hhi.
  destruct (Qcompare_spec (x - inject_Z (Qfloor x)) (1 # 2)) as [E|L|G];
    [destruct (Z.even (Qfloor x))| |];
    rewrite ?inject_Z_plus; change (inject_Z 1) with 1; lra.
Qed.

Lemma wrap1_range x : - (1 # 2) <= wrap1 x <= 1 # 2.
Proof. apply rint_near. Qed.

(** Integers are fixed points of [rint]. *)
Lemma rint_Z z : rint (inject_Z z) = inject_Z z.
Proof.
  unfold rint. rewrite Qfloor_Z.
  destruct (Qcompare_spec (inject_Z z - inject_Z z) (1 # 2)) as [E|L|G];
    try lra; reflexivity.
Qed.



End RintFacts.

(** ** The monad *)

Section MonadFacts.
Context {rng : Type}.
Implicit Types s : state rng.

Lemma bind_inv {A B} (m : M rng A) (k : A -> M rng B) s s' res :
  bind m k s = (res, s') ->
  (exists a s1, m s = (Ok a, s1) /\ k a s1 = (res, s')) \/
  (exists e, m s = (Raise e, s') /\ res = Raise e).
Proof.
  unfold bind. destruct (m s) as [[a|e] s1]; intros H.
  - left. eauto.
  - right. inversion H; subst. eauto.
Qed.

Lemma bind_Ok {A B} (m : M rng A) (k : A -> M rng B) s s' b :
  bind m k s = (Ok b, s') ->
  exists a s1, m s = (Ok a, s1) /\ k a s1 = (Ok b, s').
Proof.
  intros H. apply bind_inv in H as [H|[e [_ H]]]; [exact H|discriminate].
Qed.

Lemma bind_eq {A B} (m : M rng A) (k : A -> M rng B) s s1 a :
  m s = (Ok a, s1) -> bind m k s = k a s1.
Proof. intros H. unfold bind. now rewrite H. Qed.

Lemma bind_raise {A B} (m : M rng A) (k : A -> M rng B) s s1 e :
  m s = (Raise e, s1) -> bind m k s = (Raise e, s1).
Proof. intros H. unfold bind. now rewrite H. Qed.

Lemma pydiv_Ok a b q : pydiv a b = Ok q -> ~ b == 0 /\ q = a / b.
Proof.
  unfold pydiv. destruct (Qeq_bool b 0) eqn:E; intros H; inversion H.
  split; [|reflexivity]. now apply Qeq_bool_neq.
Qed.

Lemma pydiv_nz a b : ~ b == 0 -> pydiv a b = Ok (a / b).
Proof.
  intros H. unfold pydiv. destruct (Qeq_bool b 0) eqn:E; [|reflexivity].
  apply Qeq_bool_iff in E. contradiction.
Qed.

Lemma lift_pydiv_Ok a b q s s' :
  lift (pydiv a b) s = (Ok q, s') -> ~ b == 0 /\ q = a / b /\ s' = s.
Proof.
  unfold lift. intros H. inversion H as [[H1 H2]].
  apply pydiv_Ok in H1 as [? ?]. auto.
Qed.

(** A property of the state that every iteration keeps is kept by the
    loop, however it ends. *)
Lemma for_invariant {A} (I : state rng -> Prop) (l : list A) (body : A -> M rng unit) :
  (forall x s res s', In x l -> I s -> body x s = (res, s') -> I s') ->
  forall s res s', I s -> for_ l body s = (res, s') -> I s'.
Proof.
  induction l as [|x l IH]; intros Hbody s res s' HI H; simpl in H.
  - inversion H; subst. exact HI.
  - apply bind_inv in H as [(a & s1 & H1 & H2)|(e & H1 & _)].
    + eapply IH; [| |exact H2].
      * intros y t res' t' Hy. apply Hbody. now right.
      * eapply Hbody; [now left|exact HI|exact H1].
    + eapply Hbody; [now left|exact HI|exact H1].
Qed.

Lemma for_app {A} (l1 l2 : list A) (body : A -> M rng unit) s :
  for_ (l1 ++ l2) body s = bind (for_ l1 body) (fun _ => for_ l2 body) s.
Proof.
  revert s. induction l1 as [|x l1 IH]; intros s; simpl.
  - reflexivity.
  - unfold bind in *. destruct (body x s) as [[[]|e] s1]; [|reflexivity].
    rewrite IH. reflexivity.
Qed.

End MonadFacts.


(** ** [calculate] *)

Section CalculateFacts.
Context {rng : Type} (fast_m slow_m : hs_module).
Implicit Types (s : state rng) (g : globals).

Lemma calculate_inv g string s vars s' :
  calculate fast_m slow_m g string s = (Ok vars, s') ->
  (~ 1 + eps_box g == 0 /\ ~ 3 * eps_box g == 0 /\ ~ box g ^ 3 == 0) /\
  exists mval,
    reported_ratio string s = Some mval /\
    vars = [Variable_ "Move ratio" mval;
            Variable_ "P"
              (pressure_estimate (n_overlap (hs fast_m slow_m g)) g (r s))] /\
    s' = after_calculate vars string s.
Proof.
  unfold calculate. intros H.
  apply bind_Ok in H as (b' & s1 & H1 & H).
  apply lift_pydiv_Ok in H1 as (N1 & -> & ->).
  apply bind_Ok in H as (cur & s1 & H1 & H).
  inversion H1; subst cur s1; clear H1.
  apply bind_Ok in H as (v & s1 & H1 & H).
  apply lift_pydiv_Ok in H1 as (N2 & -> & ->).
  apply bind_Ok in H as (rho & s1 & H1 & H).
  apply lift_pydiv_Ok in H1 as (N3 & -> & ->).
  split; [auto|].
  apply bind_Ok in H as (m_r & s1 & H1 & H).
  apply bind_Ok in H as (pv & s2 & H2 & H).
  apply lift_pydiv_Ok in H2 as (_ & -> & ->).
  destruct string as [line|].
  - inversion H1; subst m_r s1; clear H1.
    exists 0. split; [reflexivity|].
    apply bind_Ok in H as ([] & s1 & H1 & H).
    inversion H; subst vars s'; clear H.
    split; [reflexivity|].
    unfold bind, emit, modify in H1. simpl in H1. inversion H1. reflexivity.
  - apply bind_Ok in H1 as (mr & s2 & H2 & H1).
    inversion H2; subst mr s2; clear H2.
    destruct (m_ratio s) as [v|] eqn:Em; [|discriminate].
    inversion H1; subst m_r s1; clear H1.
    exists v. split; [exact Em|].
    inversion H; subst vars s'. split; reflexivity.
Qed.

Lemma cube_nonzero (b : Q) : ~ b == 0 -> ~ b ^ 3 == 0.
Proof.
  intros N E. apply N. simpl in E.
  destruct (Qmult_integral _ _ E) as [E'|E']; [exact E'|].
  destruct (Qmult_integral _ _ E') as [E''|E'']; exact E''.
Qed.

Lemma calculate_eq g string s mval :
  ~ 1 + eps_box g == 0 -> ~ eps_box g == 0 -> ~ box g == 0 ->
  reported_ratio string s = Some mval ->
  let vars :=
    [Variable_ "Move ratio" mval;
     Variable_ "P" (pressure_estimate (n_overlap (hs fast_m slow_m g)) g (r s))]
  in calculate fast_m slow_m g string s = (Ok vars, after_calculate vars string s).
Proof.
  intros N1 N2 N3 Hm.
  assert (N2' : ~ 3 * eps_box g == 0) by (intros E; apply N2; lra).
  pose proof (cube_nonzero _ N3) as N3'.
  unfold calculate, bind, lift, gets.
  rewrite (pydiv_nz _ _ N1), (pydiv_nz _ _ N2'), !(pydiv_nz _ _ N3').
  destruct string as [line|]; simpl in Hm.
  - inversion Hm; subst mval. reflexivity.
  - rewrite Hm. reflexivity.
Qed.

(** C1.  Whenever [calculate] returns, its second variable is the
    pressure ["P"], and its value is [n/box^3 + vir/box^3], with [vir] the
    overlap count of the current configuration under the box contracted by
    [1/(1+eps_box)], divided by [3*eps_box].  It does return whenever no
    division is by zero and the move ratio it has to report is defined. *)
Theorem calculate_pressure g string s :
  (forall vars s',
     calculate fast_m slow_m g string s = (Ok vars, s') ->
     exists m_r p_f,
       vars = [m_r; p_f] /\ nam p_f = "P"%string /\
       val p_f ==
         inject_Z (n g) / box g ^ 3
         + vir (n_overlap (hs fast_m slow_m g)) g (r s) / box g ^ 3) /\
  (~ box g == 0 -> ~ eps_box g == 0 -> ~ 1 + eps_box g == 0 ->
   reported_ratio string s <> None ->
   exists vars s', calculate fast_m slow_m g string s = (Ok vars, s')).
Proof.
  split.
  - intros vars s' H.
    apply calculate_inv in H as (_ & mval & _ & -> & _).
    eexists _, _. split; [reflexivity|]. split; reflexivity.
  - intros N3 N2 N1 Hm.
    destruct (reported_ratio string s) as [mval|] eqn:E; [|congruence].
    eexists _, _. apply (calculate_eq g string s mval); assumption.
Qed.

(** C10.  With [eps_box > 0], a box of positive length and a nonnegative
    overlap count, the pressure [calculate] reports is at least the
    ideal-gas term [n/box^3]; and under these conditions it does report
    one, as soon as the move ratio it has to report is defined. *)
Theorem pressure_at_least_ideal_gas g string s :
  0 < eps_box g -> 0 < box g ->
  (0 <= n_overlap (hs fast_m slow_m g) (box g / (1 + eps_box g)) (r s))%Z ->
  (forall vars s',
     calculate fast_m slow_m g string s = (Ok vars, s') ->
     exists m_r p_f,
       vars = [m_r; p_f] /\ nam p_f = "P"%string /\
       inject_Z (n g) / box g ^ 3 <= val p_f) /\
  (reported_ratio string s <> None ->
   exists vars s', calculate fast_m slow_m g string s = (Ok vars, s')).
Proof.
  intros Heps Hbox Hcount. split.
  - intros vars s' H.
    apply calculate_inv in H as (_ & mval & _ & -> & _).
    eexists _, _. split; [reflexivity|]. split; [reflexivity|].
    cbn [val]. unfold pressure_estimate, ideal_gas.
    assert (Hvol : 0 < box g ^ 3).
    { simpl. repeat apply Qmult_lt_0_compat; assumption. }
    enough (0 <= vir (n_overlap (hs fast_m slow_m g)) g (r s) / box g ^ 3)
      by lra.
    assert (Hvir : 0 <= vir (n_overlap (hs fast_m slow_m g)) g (r s)).
    { unfold vir. apply Qmult_le_0_compat.
      - change 0 with (inject_Z 0). now rewrite <- Zle_Qle.
      - apply Qinv_le_0_compat. lra. }
    apply Qmult_le_0_compat; [exact Hvir|].
    apply Qinv_le_0_compat. lra.
  - intros Hm.
    destruct (reported_ratio string s) as [mval|] eqn:E; [|congruence].
    eexists _, _. apply (calculate_eq g string s mval); try assumption; lra.
Qed.

End CalculateFacts.

(** C1 at the example: the initial pressure of two distant atoms in a box
    of length 10 is the ideal-gas term. *)
Lemma calculate_pressure_witness :
  exists vars s',
    calculate Spec.hard_spheres Spec.hard_spheres g_example
      (Some "Initial values"%string) s_example = (Ok vars, s') /\
    exists m_r p_f, vars = [m_r; p_f] /\ val p_f == 2 # 1000.
Proof.
  destruct (calculate_pressure Spec.hard_spheres Spec.hard_spheres g_example
              (Some "Initial values"%string) s_example) as [Hval Hret].
  destruct Hret as (vars & s' & E);
    [vm_compute; discriminate .. | ].
  exists vars, s'. split; [exact E|].
  destruct (Hval vars s' E) as (m_r & p_f & Hv & _ & Hp).
  exists m_r, p_f. split; [exact Hv|].
  rewrite Hp. vm_compute. reflexivity.
Defined.

(** C10 as stated fails: nothing in [calculate] looks at the sign of
    [box].  With a box length of -10, [eps_box] = 0.005 and one overlap
    counted in the contracted box, [vol] is -1000 and the pressure
    reported is -0.002 - (1/0.015)/1000 = -103/1500, below the ideal-gas
    term [n/box^3] = -0.002. *)
Lemma negative_box_pressure_refuted :
  0 < eps_box g_negative_box /\
  n_overlap (hs HS HS g_negative_box)
    (box g_negative_box / (1 + eps_box g_negative_box)) (r s_close) = 1%Z /\
  exists m_r p_f s',
    calculate HS HS g_negative_box (Some "Initial values"%string) s_close
    = (Ok [m_r; p_f], s') /\
    nam p_f = "P"%string /\
    val p_f == - (103 # 1500) /\
    inject_Z (n g_negative_box) / box g_negative_box ^ 3 == - (2 # 1000) /\
    val p_f < inject_Z (n g_negative_box) / box g_negative_box ^ 3.
Proof.
  split; [reflexivity|]. split; [vm_compute; reflexivity|].
  eexists _, _, _. split; [vm_compute; reflexivity|].
  cbn [nam val]. split; [reflexivity|].
  split; [vm_compute; reflexivity|].
  split; vm_compute; reflexivity.
Qed.

(** C10, amended, at the example. *)
Lemma pressure_at_least_ideal_gas_witness :
  exists vars s',
    calculate Spec.hard_spheres Spec.hard_spheres g_example
      (Some "Initial values"%string) s_example = (Ok vars, s') /\
    exists m_r p_f, vars = [m_r; p_f] /\ 2 # 1000 <= val p_f.
Proof.
  destruct (pressure_at_least_ideal_gas Spec.hard_spheres Spec.hard_spheres
              g_example (Some "Initial values"%string) s_example)
    as [Hval Hret]; [vm_compute; reflexivity | vm_compute; reflexivity
                    | vm_compute; discriminate | ].
  destruct Hret as (vars & s' & E); [vm_compute; discriminate|].
  exists vars, s'. split; [exact E|].
  destruct (Hval vars s' E) as (m_r & p_f & Hv & _ & Hp).
  exists m_r, p_f. split; [exact Hv|].
  eapply Qle_trans; [|exact Hp]. vm_compute. discriminate.
Defined.

(** ** Trial moves, sweeps and steps *)

Section SweepFacts.
Context {rng : Type} (fast_m slow_m : hs_module).
Context (rtv : Q -> vec -> rng -> vec * rng).
Implicit Types (s : state rng) (g : globals).

(** The state after the trial move of atom [i], standing at [old]. *)
Lemma move_atom_eq g i s old :
  ~ box g == 0 -> r s !! i = Some old ->
  move_atom fast_m slow_m rtv g i s =
    (Ok tt, after_move fast_m slow_m rtv g i s old).
Proof.
  intros N Hold. unfold move_atom, after_move, trial, bind, lift, gets, index.
  rewrite (pydiv_nz _ _ N), Hold. cbn [ret].
  destruct (rtv (dr_max g / box g) old (gen s)) as [ri rnd'] eqn:E.
  cbn [fst snd modify].
  destruct (overlap_1 _ _ _ _); reflexivity.
Qed.

(** The only ways a trial move fails. *)
Lemma move_atom_inv g i s res s' :
  move_atom fast_m slow_m rtv g i s = (res, s') ->
  (res = Raise ZeroDivisionError /\ box g == 0 /\ s' = s) \/
  (res = Raise IndexError /\ r s !! i = None /\ s' = s) \/
  (exists old, ~ box g == 0 /\ r s !! i = Some old /\ res = Ok tt /\
               s' = after_move fast_m slow_m rtv g i s old).
Proof.
  intros H. destruct (Qeq_bool (box g) 0) eqn:Eb.
  - left. unfold move_atom, bind, lift, pydiv in H. rewrite Eb in H.
    inversion H. apply Qeq_bool_iff in Eb. auto.
  - right. apply Qeq_bool_neq in Eb.
    destruct (r s !! i) as [old|] eqn:Ei.
    + right. exists old. rewrite (move_atom_eq g i s old Eb Ei) in H.
      inversion H. auto.
    + left. unfold move_atom, bind, lift, gets, index in H.
      rewrite (pydiv_nz _ _ Eb), Ei in H. inversion H. auto.
Qed.

Lemma for_single {A} (x : A) (body : A -> M rng unit) s :
  for_ [x] body s = body x s.
Proof.
  simpl. unfold bind, ret. destruct (body x s) as [[[]|e] s1]; reflexivity.
Qed.

Lemma sweep_prefix_S g k s :
  sweep_prefix fast_m slow_m rtv g (S k) s =
  bind (sweep_prefix fast_m slow_m rtv g k)
    (fun _ => move_atom fast_m slow_m rtv g k) s.
Proof.
  unfold sweep_prefix. rewrite seq_S, for_app. unfold bind.
  destruct (for_ (seq 0 k) _ s) as [[[]|e] s1]; [|reflexivity].
  simpl. apply for_single.
Qed.

(** The whole sweep is the prefix up to atom [k] followed by the atoms
    from [k] on. *)
Lemma sweep_split g k s :
  (k <= Z.to_nat (n g))%nat ->
  sweep fast_m slow_m rtv g s =
  bind (sweep_prefix fast_m slow_m rtv g k)
    (fun _ => for_ (seq k (Z.to_nat (n g) - k))
                (move_atom fast_m slow_m rtv g)) s.
Proof.
  intros Hk. unfold sweep, sweep_prefix, range.
  replace (Z.to_nat (n g)) with (k + (Z.to_nat (n g) - k))%nat at 1 by lia.
  rewrite seq_app, for_app. reflexivity.
Qed.

(** C2.  In a sweep started in [s], let [si] be the state reached when
    atom [i] is up, [old] its position and [ri] its wrapped trial position.
    The trial move returns normally in a state [si'], from which the sweep
    goes on with atom [i+1].  If [overlap_1] reports no overlap of [ri]
    with the array of all the other atoms, [si'] has [ri] at index [i],
    every other row as before, and the move counter one higher; if it
    reports an overlap, the positions and the counter are those of [si]. *)
Theorem sweep_accept_reject g s i si old :
  (i < Z.to_nat (n g))%nat -> ~ box g == 0 ->
  sweep_prefix fast_m slow_m rtv g i s = (Ok tt, si) ->
  r si !! i = Some old ->
  let ri := trial rtv g si old in
  let verdict := overlap_1 (hs fast_m slow_m g) ri (box g) (delete i (r si)) in
  exists si',
    move_atom fast_m slow_m rtv g i si = (Ok tt, si') /\
    sweep_prefix fast_m slow_m rtv g (S i) s = (Ok tt, si') /\
    sweep fast_m slow_m rtv g s =
      for_ (seq (S i) (Z.to_nat (n g) - S i))
        (move_atom fast_m slow_m rtv g) si' /\
    (verdict = false ->
       r si' = <[i := ri]> (r si) /\ r si' !! i = Some ri /\
       (forall j, j <> i -> r si' !! j = r si !! j) /\
       moves si' = (moves si + 1)%Z) /\
    (verdict = true -> r si' = r si /\ moves si' = moves si).
Proof.
  intros Hi N Hpre Hold ri verdict.
  pose proof (move_atom_eq g i si old N Hold) as Hmove.
  unfold after_move in Hmove. cbn zeta in Hmove.
  fold ri in Hmove. fold verdict in Hmove.
  match type of Hmove with _ = (_, ?t) => set (si' := t) in * end.
  assert (Hnext : sweep_prefix fast_m slow_m rtv g (S i) s = (Ok tt, si')).
  { rewrite sweep_prefix_S. erewrite bind_eq by exact Hpre. exact Hmove. }
  exists si'. split; [exact Hmove|]. split; [exact Hnext|split].
  - rewrite (sweep_split g (S i) s) by lia.
    erewrite bind_eq by exact Hnext. reflexivity.
  - subst si'. destruct verdict; split; intros E; try discriminate.
    + split; reflexivity.
    + cbn. split; [reflexivity|]. split; [|split; [|reflexivity]].
      * apply list_lookup_insert_eq. eapply lookup_lt_Some; exact Hold.
      * intros j Hj. apply list_lookup_insert_ne. congruence.
Qed.

(** A trial move touches the positions, the counter and the generator
    only, and keeps the number of rows. *)
Lemma move_atom_frame g i s res s' :
  move_atom fast_m slow_m rtv g i s = (res, s') ->
  out s' = out s /\ m_ratio s' = m_ratio s /\ sav_tag s' = sav_tag s /\
  length (r s') = length (r s).
Proof.
  intros H. apply move_atom_inv in H
    as [(_ & _ & ->)|[(_ & _ & ->)|(old & _ & _ & _ & ->)]]; auto.
  unfold after_move. destruct (overlap_1 _ _ _ _); cbn;
    rewrite ?length_insert; auto.
Qed.

Lemma moves_frame g (l : list nat) s res s' :
  for_ l (move_atom fast_m slow_m rtv g) s = (res, s') ->
  out s' = out s /\ m_ratio s' = m_ratio s /\ sav_tag s' = sav_tag s /\
  length (r s') = length (r s).
Proof.
  apply (for_invariant
           (fun t => out t = out s /\ m_ratio t = m_ratio s /\
                     sav_tag t = sav_tag s /\ length (r t) = length (r s)));
    [|auto].
  intros i t res' t' _ (H1 & H2 & H3 & H4) H.
  apply move_atom_frame in H as (-> & -> & -> & ->). auto.
Qed.

Lemma after_move_moves g i s old :
  r s !! i = Some old ->
  moves (after_move fast_m slow_m rtv g i s old) =
  (moves s + if trial_overlaps fast_m slow_m rtv g i s then 0 else 1)%Z.
Proof.
  intros Hold. unfold after_move, trial_overlaps. rewrite Hold.
  destruct (overlap_1 _ _ _ _); cbn; lia.
Qed.

(** The counter after the atoms [0 .. k-1] counts those that moved. *)
Lemma sweep_prefix_moves g k s sk :
  sweep_prefix fast_m slow_m rtv g k s = (Ok tt, sk) ->
  moves sk =
  (moves s + Z.of_nat (length (List.filter
                                 (accepted_at fast_m slow_m rtv g s)
                                 (seq 0 k))))%Z.
Proof.
  revert sk. induction k as [|k IH]; intros sk H.
  - inversion H; subst. simpl. lia.
  - rewrite sweep_prefix_S in H.
    apply bind_Ok in H as ([] & sk0 & Hpre & Hmove).
    specialize (IH _ Hpre).
    apply move_atom_inv in Hmove
      as [(? & _)|[(? & _)|(old & _ & Hold & _ & ->)]]; try discriminate.
    rewrite (after_move_moves g k sk0 old Hold), IH.
    rewrite seq_S, List.filter_app, length_app. simpl.
    unfold accepted_at at 3. rewrite Hpre.
    destruct (trial_overlaps _ _ _ _ _ _); simpl; lia.
Qed.

Lemma filter_length_le {A} (f : A -> bool) (l : list A) :
  (length (List.filter f l) <= length l)%nat.
Proof.
  induction l as [|x l IH]; simpl; [lia|].
  destruct (f x); simpl; lia.
Qed.

Lemma accepted_moves_le g s :
  (Z.of_nat (accepted_moves fast_m slow_m rtv g s) <= Z.max 0 (n g))%Z.
Proof.
  unfold accepted_moves.
  pose proof (filter_length_le (accepted_at fast_m slow_m rtv g s)
                (range (n g))) as H.
  unfold range in *. rewrite length_seq in H. lia.
Qed.

Lemma ratio_unit (a b : Z) :
  (0 <= a <= Z.max 0 b)%Z -> ~ inject_Z b == 0 ->
  0 <= inject_Z a / inject_Z b <= 1.
Proof.
  intros Ha Hb.
  destruct (Z_lt_le_dec 0 b) as [Hpos|Hneg].
  - assert (0 < inject_Z b) by (change 0 with (inject_Z 0); now rewrite <- Zlt_Qlt).
    split.
    + apply Qle_shift_div_l; [assumption|].
      rewrite Qmult_0_l. change 0 with (inject_Z 0). rewrite <- Zle_Qle. lia.
    + apply Qle_shift_div_r; [assumption|].
      rewrite Qmult_1_l. rewrite <- Zle_Qle. lia.
  - assert (a = 0%Z) as -> by lia.
    unfold Qdiv. change (inject_Z 0) with 0. rewrite Qmult_0_l.
    split; [apply Qle_refl|discriminate].
Qed.

Lemma step_inv g s s' :
  step fast_m slow_m rtv g s = (Ok tt, s') ->
  exists s1,
    sweep fast_m slow_m rtv g (set_moves 0 s) = (Ok tt, s1) /\
    ~ inject_Z (n g) == 0 /\ s' = after_step fast_m slow_m g s1.
Proof.
  intros H. unfold step in H.
  apply bind_Ok in H as ([] & s0 & H0 & H).
  inversion H0; subst s0; clear H0.
  apply bind_Ok in H as ([] & s1 & Hsweep & H).
  apply bind_Ok in H as (mv & s1' & H1 & H).
  inversion H1; subst mv s1'; clear H1.
  apply bind_Ok in H as (q & s1' & H1 & H).
  apply lift_pydiv_Ok in H1 as (Nn & -> & ->).
  apply bind_Ok in H as ([] & s2 & H2 & H).
  inversion H2; subst s2; clear H2.
  apply bind_Ok in H as (vars & s3 & Hcalc & H).
  apply calculate_inv in Hcalc as (_ & mval & Hm & -> & ->).
  cbn in Hm. inversion Hm; subst mval; clear Hm.
  unfold emit, modify in H. inversion H; subst s'; clear H.
  exists s1. split; [exact Hsweep|]. split; [exact Nn|reflexivity].
Qed.


(** C9.  After a step that returns, the move counter is the number of
    atoms of the sweep whose trial move was accepted, the move ratio is that
    counter divided by [n], this ratio is the first variable of the one
    sample handed to [blk_add], and it lies between 0 and 1.  Given a
    heading, [calculate] reports the move ratio 0 instead. *)
Theorem move_ratio_reported g s :
  (forall s',
     step fast_m slow_m rtv g s = (Ok tt, s') ->
     let ratio := inject_Z (moves s') / inject_Z (n g) in
     moves s' = Z.of_nat (accepted_moves fast_m slow_m rtv g (set_moves 0 s)) /\
     m_ratio s' = Some ratio /\
     (exists p_f,
        out s' = out s ++ [Ev_blk_add [Variable_ "Move ratio" ratio; p_f]]) /\
     0 <= ratio <= 1) /\
  (forall heading vars s',
     calculate fast_m slow_m g (Some heading) s = (Ok vars, s') ->
     exists p_f, vars = [Variable_ "Move ratio" 0; p_f]).
Proof.
  split.
  - intros s' H ratio.
    apply step_inv in H as (s1 & Hsweep & Nn & ->).
    cbn in ratio |- *.
    pose proof (sweep_prefix_moves g (Z.to_nat (n g)) (set_moves 0 s) s1 Hsweep)
      as Hmv. cbn in Hmv.
    fold (range (n g)) in Hmv.
    fold (accepted_moves fast_m slow_m rtv g (set_moves 0 s)) in Hmv.
    apply moves_frame in Hsweep as (Hout & _).
    split; [exact Hmv|]. split; [reflexivity|]. split.
    + eexists. rewrite Hout. reflexivity.
    + subst ratio. apply ratio_unit; [|exact Nn].
      rewrite Hmv.
      pose proof (accepted_moves_le g (set_moves 0 s)). lia.
  - intros heading vars s' H.
    apply calculate_inv in H as (_ & mval & Hm & -> & _).
    cbn in Hm. inversion Hm; subst. eexists. reflexivity.
Qed.

End SweepFacts.

(** C2 at the example: the first atom of the sweep moves from the origin
    by [-dr_max/(3 box)] along each axis, and the counter goes from 0 to
    1. *)
Lemma sweep_accept_reject_witness :
  exists si',
    move_atom Spec.hard_spheres Spec.hard_spheres Spec.random_translate_vector
      g_example 0 s_example = (Ok tt, si') /\
    r si' !! 0%nat = Some (trial Spec.random_translate_vector g_example
                             s_example (Vec 0 0 0)) /\
    r si' !! 1%nat = r s_example !! 1%nat /\
    moves si' = 1%Z.
Proof.
  destruct (sweep_accept_reject Spec.hard_spheres Spec.hard_spheres
              Spec.random_translate_vector g_example s_example 0 s_example
              (Vec 0 0 0))
    as (si' & Hmove & _ & _ & Hacc & _);
    [vm_compute; lia | vm_compute; discriminate | reflexivity | reflexivity |].
  exists si'. split; [exact Hmove|].
  destruct Hacc as (_ & Hi & Hj & Hm); [vm_compute; reflexivity|].
  split; [exact Hi|]. split; [apply Hj; discriminate|exact Hm].
Defined.

(** C9 at the example: both atoms move in the step, the ratio is 2/2. *)
Lemma move_ratio_reported_witness :
  exists s',
    step Spec.hard_spheres Spec.hard_spheres Spec.random_translate_vector
      g_example s_example = (Ok tt, s') /\
    moves s' = 2%Z /\
    m_ratio s' = Some (inject_Z (moves s') / inject_Z 2) /\
    0 <= inject_Z (moves s') / inject_Z 2 <= 1.
Proof.
  destruct (move_ratio_reported Spec.hard_spheres Spec.hard_spheres
              Spec.random_translate_vector g_example s_example) as [Hstep _].
  eexists. split; [vm_compute; reflexivity|].
  match goal with
  | |- moves ?t = _ /\ _ =>
      destruct (Hstep t) as (Hmv & Hratio & _ & Hunit);
        [vm_compute; reflexivity|]
  end.
  split; [vm_compute; reflexivity|]. split; [exact Hratio|exact Hunit].
Defined.

(** ** Parameters *)

Section ParameterFacts.
Context {rng : Type} (fast_m slow_m : hs_module).
Context (rtv : Q -> vec -> rng -> vec * rng).
Context (reader : string -> result (Z * Q * list vec)).
Implicit Types (s : state rng) (nml : list (string * json)).

Lemma pytype_eqb_eq a b : pytype_eqb a b = true <-> a = b.
Proof. destruct a, b; simpl; split; intros H; congruence. Qed.

Lemma mistyped_spec key val :
  mistyped (key, val) = true <->
  exists d, dict_get defaults key = Some d /\ type val <> type d.
Proof.
  unfold mistyped. cbn [fst snd].
  destruct (dict_get defaults key) as [d|].
  - destruct (pytype_eqb (type val) (type d)) eqn:E; simpl.
    + apply pytype_eqb_eq in E. split; [discriminate|].
      intros (d' & Hd & Hne). congruence.
    + split; [|reflexivity]. intros _. exists d. split; [reflexivity|].
      intros E'. apply pytype_eqb_eq in E'. congruence.
  - split; [discriminate|]. intros (d & Hd & _). discriminate.
Qed.

(** An item that is not mistyped passes, with a warning if its key is
    unknown. *)
Lemma check_item_pass key val s :
  mistyped (key, val) = false ->
  check_item (key, val) s =
    (Ok tt, set_out (out s ++ map Ev_warning (unknown_keys [(key, val)])) s).
Proof.
  unfold mistyped, check_item, unknown_keys, dict_mem. cbn [fst snd map List.filter].
  destruct (dict_get defaults key) as [d|]; intros H.
  - apply negb_false_iff in H. rewrite H. cbn.
    rewrite app_nil_r. destruct s; reflexivity.
  - reflexivity.
Qed.

Lemma check_item_fail key val s :
  mistyped (key, val) = true ->
  check_item (key, val) s =
    (Raise (AssertionError (key ++ " has the wrong type")), s).
Proof.
  unfold mistyped, check_item. cbn [fst snd].
  destruct (dict_get defaults key) as [d|]; intros H; [|discriminate].
  apply negb_true_iff in H. rewrite H. reflexivity.
Qed.

Lemma unknown_keys_app nml1 nml2 :
  unknown_keys (nml1 ++ nml2) = unknown_keys nml1 ++ unknown_keys nml2.
Proof. unfold unknown_keys. now rewrite map_app, List.filter_app. Qed.

(** The loop over the items when none is mistyped. *)
Lemma check_items_pass nml s :
  forallb (fun item => negb (mistyped item)) nml = true ->
  for_ nml check_item s =
    (Ok tt, set_out (out s ++ map Ev_warning (unknown_keys nml)) s).
Proof.
  revert s. induction nml as [|[key val] nml IH]; intros s H.
  - cbn. rewrite app_nil_r. destruct s; reflexivity.
  - cbn [forallb] in H. apply andb_true_iff in H as [H1 H2].
    apply negb_true_iff in H1.
    cbn [for_]. erewrite bind_eq by (apply check_item_pass; exact H1).
    rewrite (IH _ H2). f_equal.
    change ((key, val) :: nml) with ([(key, val)] ++ nml).
    rewrite (unknown_keys_app [(key, val)] nml), map_app, app_assoc.
    reflexivity.
Qed.

(** The loop over the items up to the first mistyped one. *)
Lemma check_items_fail pre key val post s :
  forallb (fun item => negb (mistyped item)) pre = true ->
  mistyped (key, val) = true ->
  for_ (pre ++ (key, val) :: post) check_item s =
    (Raise (AssertionError (key ++ " has the wrong type")),
     set_out (out s ++ map Ev_warning (unknown_keys pre)) s).
Proof.
  intros Hpre Hbad. rewrite for_app.
  erewrite bind_eq by (apply check_items_pass; exact Hpre).
  cbn [for_]. erewrite bind_raise; [reflexivity|].
  apply check_item_fail. exact Hbad.
Qed.

(** A list with a mistyped item splits at the first one. *)
Lemma first_mistyped nml :
  forallb (fun item => negb (mistyped item)) nml = false ->
  exists pre key val post,
    nml = pre ++ (key, val) :: post /\
    forallb (fun item => negb (mistyped item)) pre = true /\
    mistyped (key, val) = true.
Proof.
  induction nml as [|[key val] nml IH]; intros H; [discriminate|].
  cbn [forallb] in H.
  destruct (mistyped (key, val)) eqn:E.
  - exists [], key, val, nml. auto.
  - cbn in H. destruct (IH H) as (pre & k & v & post & -> & Hpre & Hbad).
    exists ((key, val) :: pre), k, v, post. split; [reflexivity|].
    split; [|exact Hbad]. cbn [forallb]. now rewrite E, Hpre.
Qed.

Lemma dict_get_In (d : list (string * json)) key v :
  dict_get d key = Some v -> In (key, v) d.
Proof.
  induction d as [|[k w] d IH]; simpl; [discriminate|].
  destruct (String.eqb k key) eqn:E.
  - apply String.eqb_eq in E. intros H. inversion H; subst. now left.
  - intros H. right. auto.
Qed.

Lemma no_mistyped_iff nml :
  forallb (fun item => negb (mistyped item)) nml = true <->
  (forall key val d,
     In (key, val) nml -> dict_get defaults key = Some d -> type val = type d).
Proof.
  rewrite forallb_forall. split.
  - intros H key val d Hin Hd. specialize (H _ Hin).
    apply negb_true_iff in H. unfold mistyped in H. cbn [fst snd] in H.
    rewrite Hd in H. apply negb_false_iff in H. now apply pytype_eqb_eq.
  - intros H [key val] Hin. apply negb_true_iff.
    destruct (mistyped (key, val)) eqn:E; [|reflexivity].
    apply mistyped_spec in E as (d & Hd & Hne). exfalso. eauto.
Qed.

(** With no mistyped item, a parameter is the given value, of the type of
    the default, or the default. *)
Lemma param_typed nml key d :
  forallb (fun item => negb (mistyped item)) nml = true ->
  dict_get defaults key = Some d ->
  type (param nml key) = type d /\
  (dict_get nml key = None -> param nml key = d) /\
  (forall v, dict_get nml key = Some v -> param nml key = v).
Proof.
  intros Hok Hd. unfold param. rewrite Hd.
  destruct (dict_get nml key) as [v|] eqn:E.
  - split; [|split; [discriminate|intros w Hw; congruence]].
    apply no_mistyped_iff with (key := key) (val := v) (d := d) in Hok; auto.
    now apply dict_get_In.
  - split; [reflexivity|]. split; [reflexivity|discriminate].
Qed.

Lemma read_parameters_pass nml s :
  forallb (fun item => negb (mistyped item)) nml = true ->
  exists nb ns dm eb fa,
    read_parameters nml s =
      (Ok (nb, ns, dm, eb, fa),
       set_out (out s ++ map Ev_warning (unknown_keys nml)) s) /\
    param nml "nblock" = JInt nb /\ param nml "nstep" = JInt ns /\
    param nml "dr_max" = JFloat dm /\ param nml "eps_box" = JFloat eb /\
    param nml "fast" = JBool fa.
Proof.
  intros Hok.
  destruct (param_typed nml "nblock" _ Hok eq_refl) as (T1 & _).
  destruct (param_typed nml "nstep" _ Hok eq_refl) as (T2 & _).
  destruct (param_typed nml "dr_max" _ Hok eq_refl) as (T3 & _).
  destruct (param_typed nml "eps_box" _ Hok eq_refl) as (T4 & _).
  destruct (param_typed nml "fast" _ Hok eq_refl) as (T5 & _).
  destruct (param nml "nblock") as [| |nb| | | |] eqn:E1; try discriminate.
  destruct (param nml "nstep") as [| |ns| | | |] eqn:E2; try discriminate.
  destruct (param nml "dr_max") as [| | |dm| | |] eqn:E3; try discriminate.
  destruct (param nml "eps_box") as [| | |eb| | |] eqn:E4; try discriminate.
  destruct (param nml "fast") as [|fa| | | | |] eqn:E5; try discriminate.
  exists nb, ns, dm, eb, fa. split; [|auto].
  unfold read_parameters.
  erewrite bind_eq by (apply check_items_pass; exact Hok).
  rewrite E1, E2, E3, E4, E5. reflexivity.
Qed.

Lemma main_eq nml entropy s :
  main fast_m slow_m rtv reader nml entropy s =
  bind (read_parameters nml)
    (fun params => load_and_run fast_m slow_m rtv reader params entropy)
    (checked [] s).
Proof.
  unfold main, checked, bind, modify, emit, banner. cbn.
  rewrite app_nil_r, <- app_assoc. reflexivity.
Qed.

Lemma checked_more ks s :
  set_out (out (checked [] s) ++ map Ev_warning ks) (checked [] s) =
  checked ks s.
Proof. unfold checked. cbn. rewrite app_nil_r. reflexivity. Qed.

(** C7.  (a) If some item of the input names a documented parameter with
    a value whose type is not the type of the default, the script ends
    with the assertion error "... has the wrong type" for such an item,
    having printed its banner and some warnings only.  (b) If there is no
    such item, the script goes on to load the configuration and run, having
    warned about exactly the undocumented keys; each parameter is the
    value given for it, and 10, 1000, 0.15, 0.005 and true when none is
    given. *)
Theorem parameter_input nml entropy s :
  (forall key val d,
     In (key, val) nml -> dict_get defaults key = Some d ->
     type val <> type d ->
     exists bad v ks,
       In (bad, v) nml /\ mistyped (bad, v) = true /\
       main fast_m slow_m rtv reader nml entropy s =
         (Raise (AssertionError (bad ++ " has the wrong type")),
          checked ks s)) /\
  ((forall key val d,
      In (key, val) nml -> dict_get defaults key = Some d ->
      type val = type d) ->
   exists nb ns dm eb fa,
     main fast_m slow_m rtv reader nml entropy s =
       load_and_run fast_m slow_m rtv reader (nb, ns, dm, eb, fa) entropy
         (checked (unknown_keys nml) s) /\
     (dict_get nml "nblock" = None -> nb = 10%Z) /\
     (dict_get nml "nstep" = None -> ns = 1000%Z) /\
     (dict_get nml "dr_max" = None -> dm = 15 # 100) /\
     (dict_get nml "eps_box" = None -> eb = 5 # 1000) /\
     (dict_get nml "fast" = None -> fa = true) /\
     (forall v, dict_get nml "nblock" = Some v -> v = JInt nb) /\
     (forall v, dict_get nml "nstep" = Some v -> v = JInt ns) /\
     (forall v, dict_get nml "dr_max" = Some v -> v = JFloat dm) /\
     (forall v, dict_get nml "eps_box" = Some v -> v = JFloat eb) /\
     (forall v, dict_get nml "fast" = Some v -> v = JBool fa)).
Proof.
  split.
  - intros key val d Hin Hd Hne.
    assert (Hbad : forallb (fun item => negb (mistyped item)) nml = false).
    { destruct (forallb _ nml) eqn:E; [|reflexivity].
      exfalso. apply Hne. eapply no_mistyped_iff; eauto. }
    apply first_mistyped in Hbad as (pre & bad & v & post & -> & Hpre & Hb).
    exists bad, v, (unknown_keys pre).
    split; [apply in_or_app; right; now left|]. split; [exact Hb|].
    rewrite main_eq. erewrite bind_raise; [reflexivity|].
    unfold read_parameters. erewrite bind_raise; [reflexivity|].
    rewrite (check_items_fail pre bad v post _ Hpre Hb).
    now rewrite checked_more.
  - intros Hok. apply no_mistyped_iff in Hok.
    destruct (read_parameters_pass nml (checked [] s) Hok)
      as (nb & ns & dm & eb & fa & Hread & E1 & E2 & E3 & E4 & E5).
    exists nb, ns, dm, eb, fa.
    split.
    { rewrite main_eq. erewrite bind_eq by exact Hread.
      now rewrite checked_more. }
    destruct (param_typed nml "nblock" _ Hok eq_refl) as (_ & D1 & G1).
    destruct (param_typed nml "nstep" _ Hok eq_refl) as (_ & D2 & G2).
    destruct (param_typed nml "dr_max" _ Hok eq_refl) as (_ & D3 & G3).
    destruct (param_typed nml "eps_box" _ Hok eq_refl) as (_ & D4 & G4).
    destruct (param_typed nml "fast" _ Hok eq_refl) as (_ & D5 & G5).
    rewrite E1 in D1, G1. rewrite E2 in D2, G2. rewrite E3 in D3, G3.
    rewrite E4 in D4, G4. rewrite E5 in D5, G5.
    repeat split;
      try (intros H;
           first [ specialize (D1 H); now inversion D1
                 | specialize (D2 H); now inversion D2
                 | specialize (D3 H); now inversion D3
                 | specialize (D4 H); now inversion D4
                 | specialize (D5 H); now inversion D5 ]);
      intros v H; symmetry; auto.
Qed.

End ParameterFacts.

(** C7 at the examples: a float for [nstep] is fatal; an undocumented key
    is not, and [nblock] is the 2 given while [dr_max] is the default. *)
Lemma parameter_input_witness :
  (exists bad v ks,
     In (bad, v) nml_mistyped /\
     main Spec.hard_spheres Spec.hard_spheres Spec.random_translate_vector
       reader_example nml_mistyped (fun _ => 0) s_initial =
     (Raise (AssertionError (bad ++ " has the wrong type")),
      checked ks s_initial)) /\
  (exists ns eb fa,
     main Spec.hard_spheres Spec.hard_spheres Spec.random_translate_vector
       reader_example nml_example (fun _ => 0) s_initial =
     load_and_run Spec.hard_spheres Spec.hard_spheres
       Spec.random_translate_vector reader_example
       (2%Z, ns, 15 # 100, eb, fa) (fun _ => 0)
       (checked ["foo"%string] s_initial)).
Proof.
  split.
  - destruct (parameter_input Spec.hard_spheres Spec.hard_spheres
                Spec.random_translate_vector reader_example nml_mistyped
                (fun _ => 0) s_initial) as [Hbad _].
    destruct (Hbad "nstep"%string (JFloat 1) (JInt 1000))
      as (bad & v & ks & Hin & _ & Hmain);
      [right; left; reflexivity | reflexivity | discriminate |].
    exists bad, v, ks. split; [exact Hin|exact Hmain].
  - destruct (parameter_input Spec.hard_spheres Spec.hard_spheres
                Spec.random_translate_vector reader_example nml_example
                (fun _ => 0) s_initial) as [_ Hgood].
    destruct Hgood
      as (nb & ns & dm & eb & fa & Hmain & _ & _ & Hdm & _ & _ & Hnb & _).
    { intros key val d [H|[H|[H|[]]]] Hd; inversion H; subst;
        cbn in Hd; inversion Hd; reflexivity. }
    specialize (Hdm eq_refl). specialize (Hnb _ eq_refl).
    inversion Hnb; subst nb. subst dm.
    exists ns, eb, fa. exact Hmain.
Defined.

(** ** Loading and the initial check *)

Section LoadFacts.
Context {rng : Type} (fast_m slow_m : hs_module).
Context (rtv : Q -> vec -> rng -> vec * rng).
Context (reader : string -> result (Z * Q * list vec)).
Implicit Types (s : state rng) (nml : list (string * json)).

(** Lines 103-123 with a readable configuration and a box length that is
    not zero. *)
Lemma load_eq params entropy s n0 box0 r0 :
  reader (cnf_prefix ++ inp_tag) = Ok (n0, box0, r0) -> ~ box0 == 0 ->
  load_and_run fast_m slow_m rtv reader params entropy s =
  simulate fast_m slow_m rtv (globals_of params n0 box0)
    (loaded params entropy n0 box0 r0 s).
Proof.
  intros Hread N. destruct params as [[[[nb ns] dm] eb] fa].
  unfold load_and_run, loaded, load_trace, globals_of.
  unfold bind, emit, modify, lift, gets.
  rewrite Hread, (pydiv_nz _ _ (cube_nonzero _ N)). cbn.
  repeat rewrite <- app_assoc. reflexivity.
Qed.

Lemma simulate_initial_overlap g s :
  overlap (hs fast_m slow_m g) (box g) (r s) = true ->
  simulate fast_m slow_m rtv g s =
    (Raise (AssertionError "Overlap in initial configuration"), s).
Proof.
  intros H. unfold simulate, bind, gets, assert_. rewrite H. reflexivity.
Qed.

Lemma warnings_not_simulation ks :
  forallb (fun e => negb (is_simulation_event e)) (map Ev_warning ks) = true.
Proof. induction ks; simpl; auto. Qed.

(** C4.  With well-typed parameters, a readable configuration and a box
    length that is not zero: if [overlap] is true of the loaded
    configuration, the script ends with the assertion error "Overlap in
    initial configuration".  By then it has printed the banner, the
    warnings, the parameters and the particle number, box length and
    density, nothing of the simulation: no sample, no block, no
    checkpoint.  The generator has not drawn, the counter and the move
    ratio are untouched, and the positions are the loaded ones. *)
Theorem initial_overlap_fatal nml entropy s n0 box0 r0 :
  (forall key val d,
     In (key, val) nml -> dict_get defaults key = Some d ->
     type val = type d) ->
  reader (cnf_prefix ++ inp_tag) = Ok (n0, box0, r0) ->
  ~ box0 == 0 ->
  (forall fa, param nml "fast" = JBool fa ->
     overlap (if fa then fast_m else slow_m) box0 (loaded_positions box0 r0)
     = true) ->
  exists params s',
    main fast_m slow_m rtv reader nml entropy s =
      (Raise (AssertionError "Overlap in initial configuration"), s') /\
    out s' = ((out s ++ banner) ++ map Ev_warning (unknown_keys nml))
             ++ load_trace params n0 box0 /\
    forallb (fun e => negb (is_simulation_event e))
      (banner ++ map Ev_warning (unknown_keys nml) ++ load_trace params n0 box0)
      = true /\
    r s' = loaded_positions box0 r0 /\
    gen s' = entropy /\ moves s' = moves s /\ m_ratio s' = m_ratio s.
Proof.
  intros Hok Hread N Hov.
  pose proof (proj2 (no_mistyped_iff nml) Hok) as Hok'.
  destruct (read_parameters_pass nml (checked [] s) Hok')
    as (nb & ns & dm & eb & fa & Hpar & _ & _ & _ & _ & Hfa).
  exists (nb, ns, dm, eb, fa).
  eexists. split.
  - rewrite main_eq. erewrite bind_eq by exact Hpar.
    rewrite (load_eq _ _ _ _ _ _ Hread N).
    apply simulate_initial_overlap. cbn. apply Hov. exact Hfa.
  - cbn. rewrite app_nil_r. split; [reflexivity|].
    split; [|auto].
    rewrite forallb_app. cbn. rewrite warnings_not_simulation. reflexivity.
Qed.

End LoadFacts.

(** C4 at the example: two atoms at opposite corners of the box are
    periodic images of one another; the script stops at the initial
    check. *)
Lemma initial_overlap_fatal_witness :
  exists s',
    main Spec.hard_spheres Spec.hard_spheres Spec.random_translate_vector
      reader_corners nml_example (fun _ => 0) s_initial =
    (Raise (AssertionError "Overlap in initial configuration"), s') /\
    r s' = loaded_positions 10 [Vec (-5) (-5) (-5); Vec 5 5 5] /\
    moves s' = 0%Z.
Proof.
  destruct (initial_overlap_fatal Spec.hard_spheres Spec.hard_spheres
              Spec.random_translate_vector reader_corners nml_example
              (fun _ => 0) s_initial 2 10 [Vec (-5) (-5) (-5); Vec 5 5 5])
    as (params & s' & Hmain & _ & _ & Hr & _ & Hmoves & _).
  - intros key val d [H|[H|[H|[]]]] Hd; inversion H; subst;
      cbn in Hd; inversion Hd; reflexivity.
  - reflexivity.
  - vm_compute. discriminate.
  - intros fa _. destruct fa; vm_compute; reflexivity.
  - exists s'. split; [exact Hmain|]. split; [exact Hr|exact Hmoves].
Defined.

(** ** Blocks, checkpoints and the run *)

Section RunFacts.
Context {rng : Type} (fast_m slow_m : hs_module).
Context (rtv : Q -> vec -> rng -> vec * rng).
Implicit Types (s : state rng) (g : globals).

(** [str(blk).zfill(3)] writes a block index below 1000 with three
    digits. *)
Lemma zfill_three_digits blk :
  (0 <= blk < 1000)%Z -> zfill 3 (str blk) = zero_padded3 blk.
Proof.
  intros Hblk.
  assert (H : forallb
                (fun k => String.eqb (zfill 3 (str (Z.of_nat k)))
                            (zero_padded3 (Z.of_nat k)))
                (seq 0 1000) = true) by (vm_compute; reflexivity).
  rewrite forallb_forall in H.
  specialize (H (Z.to_nat blk)). rewrite Z2Nat.id in H by lia.
  apply String.eqb_eq, H, in_seq. lia.
Qed.

Lemma block_tag_checkpoint_tag blk :
  (0 <= blk)%Z -> block_tag blk = checkpoint_tag blk.
Proof.
  intros Hblk. unfold block_tag, checkpoint_tag.
  destruct (blk <? 1000)%Z eqn:E; [|reflexivity].
  apply Z.ltb_lt in E. apply zfill_three_digits. lia.
Qed.

(** A step adds one sample to the trace and keeps everything else but the
    positions, the counter, the ratio and the generator. *)
Lemma step_trace g s s' :
  step fast_m slow_m rtv g s = (Ok tt, s') ->
  exists vars, out s' = out s ++ [Ev_blk_add vars].
Proof.
  intros H. apply step_inv in H as (s1 & Hsweep & _ & ->).
  apply moves_frame in Hsweep as (Hout & _).
  eexists. cbn. rewrite Hout. reflexivity.
Qed.

Lemma steps_trace g (l : list nat) s s' :
  for_ l (fun _ => step fast_m slow_m rtv g) s = (Ok tt, s') ->
  exists samples,
    out s' = out s ++ samples /\
    forallb is_blk_add samples = true /\ length samples = length l.
Proof.
  revert s. induction l as [|x l IH]; intros s H.
  - inversion H; subst. exists []. rewrite app_nil_r. auto.
  - cbn [for_] in H. apply bind_Ok in H as ([] & s1 & Hstep & H).
    apply step_trace in Hstep as (vars & Hout1).
    apply IH in H as (samples & Hout & Hall & Hlen).
    exists (Ev_blk_add vars :: samples).
    rewrite Hout, Hout1, <- app_assoc. cbn. auto.
Qed.

(** The trace of a block that returns. *)
Lemma block_inv g blk s s' :
  block fast_m slow_m rtv g blk s = (Ok tt, s') ->
  exists samples,
    out s' = out s ++ Ev_blk_begin :: samples
             ++ [Ev_blk_end blk;
                 Ev_write_cnf_atoms (cnf_prefix ++ block_tag blk) (n g) (box g)
                   (scale (box g) (r s'))] /\
    forallb is_blk_add samples = true /\
    length samples = Z.to_nat (nstep g) /\
    sav_tag s' = block_tag blk.
Proof.
  intros H. unfold block in H.
  apply bind_Ok in H as ([] & s0 & H0 & H).
  unfold emit, modify in H0. inversion H0; subst s0; clear H0.
  apply bind_Ok in H as ([] & s1 & Hsteps & H).
  apply steps_trace in Hsteps as (samples & Hout & Hall & Hlen).
  unfold bind, emit, modify, gets in H. cbn in H.
  inversion H; subst s'; clear H. cbn in Hout |- *.
  exists samples. rewrite Hout. unfold range in Hlen. rewrite length_seq in Hlen.
  repeat rewrite <- app_assoc. cbn. auto.
Qed.

Lemma samples_not_checkpointing (samples : list event) :
  forallb is_blk_add samples = true ->
  List.filter is_checkpointing samples = [].
Proof.
  induction samples as [|e l IH]; [reflexivity|].
  cbn [forallb]. intros H. apply andb_true_iff in H as [He Hl].
  destruct e; try discriminate. cbn. auto.
Qed.

Lemma last_cons {A} (a d : A) (l : list A) :
  List.last (a :: l) d = List.last l a.
Proof.
  revert a d. induction l as [|b l IH]; intros a d; [reflexivity|].
  change (List.last (a :: b :: l) d) with (List.last (b :: l) d).
  now rewrite !IH.
Qed.

(** The trace of a run of blocks: each block is closed and then
    checkpointed, in the order of the blocks. *)
Lemma blocks_inv g (blks : list Z) s s' :
  for_ blks (block fast_m slow_m rtv g) s = (Ok tt, s') ->
  Forall (fun blk => (0 <= blk)%Z) blks ->
  exists cfgs new,
    out s' = out s ++ new /\ length cfgs = length blks /\
    List.filter is_checkpointing new = block_checkpoints g blks cfgs /\
    List.last cfgs (r s) = r s'.
Proof.
  revert s. induction blks as [|blk blks IH]; intros s H Hpos.
  - inversion H; subst. exists [], []. rewrite app_nil_r. auto.
  - cbn [for_] in H. apply bind_Ok in H as ([] & s1 & Hblock & H).
    inversion Hpos as [|? ? Hblk Hpos']; subst.
    apply block_inv in Hblock as (samples & Hout1 & Hall & _ & _).
    apply IH in H as (cfgs & new & Hout & Hlen & Hfil & Hlast); [|exact Hpos'].
    exists (r s1 :: cfgs). eexists. split; [|split; [|split]].
    + rewrite Hout, Hout1, <- app_assoc. reflexivity.
    + cbn. now rewrite Hlen.
    + cbn [app List.filter is_checkpointing].
      rewrite !List.filter_app, (samples_not_checkpointing _ Hall).
      cbn. rewrite Hfil, (block_tag_checkpoint_tag _ Hblk). reflexivity.
    + rewrite last_cons. exact Hlast.
Qed.

Lemma range_from_nonneg (start stop : Z) :
  (0 <= start)%Z -> Forall (fun blk => (0 <= blk)%Z) (range_from start stop).
Proof.
  intros H. unfold range_from. apply List.Forall_forall. intros x Hx.
  apply in_map_iff in Hx as (k & <- & _). lia.
Qed.

Lemma range_from_length (start stop : Z) :
  length (range_from start stop) = Z.to_nat (stop - start).
Proof. unfold range_from. now rewrite length_map, length_seq. Qed.

(** The shape of a run that returns. *)
Lemma simulate_inv g s s' :
  simulate fast_m slow_m rtv g s = (Ok tt, s') ->
  exists s3,
    overlap (hs fast_m slow_m g) (box g) (r s) = false /\
    for_ (range_from 1 (nblock g + 1)) (block fast_m slow_m rtv g)
      (set_out (out s ++ start_trace fast_m slow_m g (r s)) s) = (Ok tt, s3) /\
    overlap (hs fast_m slow_m g) (box g) (r s3) = false /\
    s' = set_out (out s3 ++ finish_trace fast_m slow_m g (r s3)) s3.
Proof.
  intros H. unfold simulate in H.
  apply bind_Ok in H as (cur & s0 & H0 & H).
  inversion H0; subst cur s0; clear H0.
  apply bind_Ok in H as ([] & s0 & H0 & H).
  unfold assert_ in H0.
  destruct (overlap (hs fast_m slow_m g) (box g) (r s)) eqn:Ov0;
    [discriminate|].
  inversion H0; subst s0; clear H0.
  apply bind_Ok in H as (vars & s1 & Hcalc & H).
  apply calculate_inv in Hcalc as (_ & mval & Hm & -> & ->).
  cbn in Hm. inversion Hm; subst mval; clear Hm.
  apply bind_Ok in H as ([] & s2 & H2 & H).
  unfold emit, modify in H2. inversion H2; subst s2; clear H2.
  apply bind_Ok in H as ([] & s3 & Hblocks & H).
  exists s3. split; [reflexivity|]. split.
  { cbn in Hblocks |- *. unfold start_trace, headed_variables.
    cbn. rewrite <- !app_assoc in Hblocks. exact Hblocks. }
  apply bind_Ok in H as ([] & s4 & H4 & H).
  unfold emit, modify in H4. inversion H4; subst s4; clear H4.
  apply bind_Ok in H as (vars & s5 & Hcalc & H).
  apply calculate_inv in Hcalc as (_ & mval & Hm & -> & ->).
  cbn in Hm. inversion Hm; subst mval; clear Hm.
  apply bind_Ok in H as (cur & s6 & H6 & H).
  inversion H6; subst cur s6; clear H6.
  apply bind_Ok in H as ([] & s6 & H6 & H).
  unfold assert_ in H6. cbn in H6.
  destruct (overlap (hs fast_m slow_m g) (box g) (r s3)) eqn:Ov1;
    [discriminate|].
  inversion H6; subst s6; clear H6.
  split; [reflexivity|].
  unfold bind, emit, modify in H. cbn in H. inversion H; subst s'; clear H.
  unfold finish_trace, headed_variables, checkpoint. cbn.
  rewrite <- !app_assoc. reflexivity.
Qed.

(** C8.  (a) A block [blk >= 1] that returns leaves in the trace its
    samples, then the block end [blk], then, last, the checkpoint of the
    positions it ends with, multiplied by [box], under the tag that is
    [blk] in three digits below 1000 and "sav" from 1000 on.  (b) In a run
    that returns, the block ends and checkpoints are, in this order: for
    each block 1 .. nblock its end and then its checkpoint, and finally
    the checkpoint of the final positions under the tag "out". *)
Theorem block_checkpoints_written g s :
  (forall blk s',
     (1 <= blk)%Z ->
     block fast_m slow_m rtv g blk s = (Ok tt, s') ->
     exists samples,
       out s' = out s ++ Ev_blk_begin :: samples
                ++ [Ev_blk_end blk; checkpoint g (checkpoint_tag blk) (r s')] /\
       forallb is_blk_add samples = true) /\
  (forall s',
     simulate fast_m slow_m rtv g s = (Ok tt, s') ->
     exists cfgs new,
       out s' = out s ++ new /\
       length cfgs = Z.to_nat (nblock g) /\
       List.last cfgs (r s) = r s' /\
       List.filter is_checkpointing new =
         block_checkpoints g (range_from 1 (nblock g + 1)) cfgs
         ++ [checkpoint g out_tag (r s')]).
Proof.
  split.
  - intros blk s' Hblk H.
    apply block_inv in H as (samples & Hout & Hall & _ & _).
    exists samples. split; [|exact Hall].
    rewrite Hout, (block_tag_checkpoint_tag blk) by lia. reflexivity.
  - intros s' H.
    apply simulate_inv in H as (s3 & _ & Hblocks & _ & ->).
    apply blocks_inv in Hblocks as (cfgs & new & Hout & Hlen & Hfil & Hlast);
      [|apply range_from_nonneg; lia].
    exists cfgs. eexists. cbn [out set_out r] in *.
    split; [rewrite Hout, <- !app_assoc; reflexivity|].
    split; [rewrite Hlen, range_from_length; f_equal; lia|].
    split; [exact Hlast|].
    rewrite !List.filter_app, Hfil. reflexivity.
Qed.

End RunFacts.

(** ** Weakest preconditions of the monad's operations *)

Section WpFacts.
Context {rng : Type}.
Implicit Types s : state rng.

Lemma wp_run {A} (m : M rng A) Post Exc s res s' :
  wp m Post Exc s -> m s = (res, s') ->
  match res with Ok a => Post a s' | Raise e => Exc e s' end.
Proof. unfold wp. intros H E. now rewrite E in H. Qed.

Lemma wp_of_run {A} (m : M rng A) (Post : A -> state rng -> Prop)
  (Exc : exn -> state rng -> Prop) s :
  (forall res s', m s = (res, s') ->
     match res with Ok a => Post a s' | Raise e => Exc e s' end) ->
  wp m Post Exc s.
Proof. unfold wp. intros H. destruct (m s) as [res s'] eqn:E. now apply H. Qed.

Lemma wp_bind {A B} (m : M rng A) (k : A -> M rng B) Post Exc s :
  wp (bind m k) Post Exc s = wp m (fun a s' => wp (k a) Post Exc s') Exc s.
Proof. unfold wp, bind. destruct (m s) as [[a|e] s']; reflexivity. Qed.

Lemma wp_ret {A} (a : A) Post Exc s : wp (ret a) Post Exc s = Post a s.
Proof. reflexivity. Qed.

Lemma wp_raise {A} e (Post : A -> state rng -> Prop) Exc s :
  wp (raise e) Post Exc s = Exc e s.
Proof. reflexivity. Qed.

Lemma wp_gets {A} (f : state rng -> A) Post Exc s :
  wp (gets f) Post Exc s = Post (f s) s.
Proof. reflexivity. Qed.

Lemma wp_modify (f : state rng -> state rng) Post Exc s :
  wp (modify f) Post Exc s = Post tt (f s).
Proof. reflexivity. Qed.

Lemma wp_emit (e : event) Post Exc s :
  wp (emit e) Post Exc s = Post tt (set_out (out s ++ [e]) s).
Proof. reflexivity. Qed.

Lemma wp_lift {A} (x : result A) Post Exc s :
  wp (lift x) Post Exc s =
  match x with Ok a => Post a s | Raise e => Exc e s end.
Proof. destruct x; reflexivity. Qed.

Lemma wp_assert cond msg Post Exc s :
  wp (assert_ cond msg) Post Exc s =
  if cond then Post tt s else Exc (AssertionError msg) s.
Proof. destruct cond; reflexivity. Qed.

Lemma wp_mono {A} (m : M rng A) (Post Post' : A -> state rng -> Prop)
  (Exc Exc' : exn -> state rng -> Prop) s :
  wp m Post Exc s ->
  (forall a s', Post a s' -> Post' a s') ->
  (forall e s', Exc e s' -> Exc' e s') ->
  wp m Post' Exc' s.
Proof. unfold wp. destruct (m s) as [[a|e] s']; auto. Qed.

(** The loop rule: an invariant of every iteration is one of the loop. *)
Lemma wp_for {A} (J : state rng -> Prop) Exc (l : list A)
  (body : A -> M rng unit) :
  (forall x s, In x l -> J s -> wp (body x) (fun _ => J) Exc s) ->
  forall s, J s -> wp (for_ l body) (fun _ => J) Exc s.
Proof.
  induction l as [|x l IH]; intros Hbody s HJ; cbn [for_].
  - exact HJ.
  - rewrite wp_bind. eapply wp_mono.
    + apply Hbody; [now left|exact HJ].
    + cbn beta. intros _ s' HJ'. apply IH; [|exact HJ'].
      intros y t Hy. apply Hbody. now right.
    + auto.
Qed.

End WpFacts.

(** ** Invariants of the positions over a run *)

Section RunInvariant.
Context {rng : Type} (fast_m slow_m : hs_module).
Context (rtv : Q -> vec -> rng -> vec * rng).
Implicit Types (s : state rng).

Lemma pydiv_z a b : b == 0 -> pydiv a b = Raise ZeroDivisionError.
Proof. intros H. unfold pydiv. apply Qeq_bool_iff in H. now rewrite H. Qed.

(** [calculate], with its failures. *)
Lemma calculate_wp g string s (Post : list VariableType -> state rng -> Prop)
  (Exc : exn -> state rng -> Prop) :
  (1 + eps_box g == 0 \/ eps_box g == 0 \/ box g == 0 ->
   Exc ZeroDivisionError s) ->
  (reported_ratio string s = None -> Exc (NameError "m_ratio") s) ->
  (forall mval,
     reported_ratio string s = Some mval ->
     ~ 1 + eps_box g == 0 -> ~ eps_box g == 0 -> ~ box g == 0 ->
     let vars :=
       [Variable_ "Move ratio" mval;
        Variable_ "P"
          (pressure_estimate (n_overlap (hs fast_m slow_m g)) g (r s))] in
     Post vars (after_calculate vars string s)) ->
  wp (calculate fast_m slow_m g string) Post Exc s.
Proof.
  intros Hz Hn Hok.
  destruct (Qeq_dec (1 + eps_box g) 0) as [Z1|N1].
  { unfold wp, calculate, bind, lift. rewrite (pydiv_z _ _ Z1). auto. }
  destruct (Qeq_dec (eps_box g) 0) as [Z2|N2].
  { unfold wp, calculate, bind, lift, gets. rewrite (pydiv_nz _ _ N1).
    assert (Z2' : 3 * eps_box g == 0) by (rewrite Z2; reflexivity).
    rewrite (pydiv_z _ _ Z2'). auto. }
  assert (N2' : ~ 3 * eps_box g == 0) by (intros E; apply N2; lra).
  destruct (Qeq_dec (box g) 0) as [Z3|N3].
  { unfold wp, calculate, bind, lift, gets.
    rewrite (pydiv_nz _ _ N1), (pydiv_nz _ _ N2').
    assert (Z3' : box g ^ 3 == 0) by (rewrite Z3; reflexivity).
    rewrite (pydiv_z _ _ Z3'). auto. }
  destruct (reported_ratio string s) as [mval|] eqn:Em.
  - unfold wp. rewrite (calculate_eq fast_m slow_m g string s mval) by assumption.
    apply Hok; [reflexivity|assumption..].
  - destruct string as [line|]; [discriminate|]. cbn in Em.
    unfold wp, calculate, bind, lift, gets.
    rewrite (pydiv_nz _ _ N1), (pydiv_nz _ _ N2'),
      (pydiv_nz _ _ (cube_nonzero _ N3)), Em. cbn. auto.
Qed.

Variable g : globals.

(** [I] is a property of the positions, [E] one of the exceptions the
    run may end with. *)
Variable I : list vec -> Prop.
Variable E : exn -> Prop.

Hypothesis I_accept :
  forall cur i old ri,
    I cur -> cur !! i = Some old ->
    overlap_1 (hs fast_m slow_m g) (wrap ri) (box g) (delete i cur) = false ->
    I (<[i := wrap ri]> cur).
Hypothesis E_box : box g == 0 -> E ZeroDivisionError.
Hypothesis E_eps :
  1 + eps_box g == 0 \/ eps_box g == 0 -> E ZeroDivisionError.
Hypothesis E_n : inject_Z (n g) == 0 -> E ZeroDivisionError.
Hypothesis E_index :
  forall cur i,
    I cur -> (i < Z.to_nat (n g))%nat -> cur !! i = None -> E IndexError.

Local Notation "'Inv'" := (fun (_ : unit) (s : state rng) => I (r s)).
Local Notation "'Fail'" := (fun (e : exn) (s : state rng) => I (r s) /\ E e).

Lemma move_atom_keeps i s :
  (i < Z.to_nat (n g))%nat -> I (r s) ->
  wp (move_atom fast_m slow_m rtv g i) Inv Fail s.
Proof.
  intros Hi HI. apply wp_of_run. intros res s' H.
  apply move_atom_inv in H
    as [(-> & Hz & ->)|[(-> & Hnone & ->)|(old & _ & Hold & -> & ->)]].
  - auto.
  - split; [exact HI|]. eapply E_index; eauto.
  - unfold after_move, trial.
    destruct (overlap_1 _ _ _ _) eqn:Ov; cbn; [exact HI|].
    eapply I_accept; eauto.
Qed.

Lemma sweep_keeps s :
  I (r s) -> wp (sweep fast_m slow_m rtv g) Inv Fail s.
Proof.
  intros HI. unfold sweep.
  apply (wp_for (fun t => I (r t))); [|exact HI].
  intros i t Hi Ht. apply move_atom_keeps; [|exact Ht].
  unfold range in Hi. apply in_seq in Hi. lia.
Qed.

Lemma calculate_keeps string s :
  I (r s) -> reported_ratio string s <> None ->
  wp (calculate fast_m slow_m g string) (fun _ t => I (r t)) Fail s.
Proof.
  intros HI Hm. apply calculate_wp.
  - intros [H|[H|H]]; auto.
  - intros H. contradiction.
  - intros mval _ _ _ _ vars. destruct string; exact HI.
Qed.

Lemma step_keeps s :
  I (r s) -> wp (step fast_m slow_m rtv g) Inv Fail s.
Proof.
  intros HI. unfold step.
  rewrite wp_bind, wp_modify, wp_bind.
  eapply wp_mono; [apply sweep_keeps; exact HI| |auto].
  cbn beta. intros _ s1 H1.
  rewrite wp_bind, wp_gets, wp_bind, wp_lift.
  destruct (pydiv _ _) as [ratio|e] eqn:Ed.
  2:{ unfold pydiv in Ed. destruct (Qeq_bool _ _) eqn:Eb; inversion Ed.
      apply Qeq_bool_iff in Eb. auto. }
  rewrite wp_bind, wp_modify, wp_bind.
  eapply wp_mono; [apply calculate_keeps; [exact H1|discriminate]| |auto].
  cbn beta. intros vars s2 H2. rewrite wp_emit. exact H2.
Qed.

Lemma block_keeps blk s :
  I (r s) -> wp (block fast_m slow_m rtv g blk) Inv Fail s.
Proof.
  intros HI. unfold block.
  rewrite wp_bind, wp_emit, wp_bind.
  eapply wp_mono;
    [apply (wp_for (fun t => I (r t)));
       [intros _ t _ Ht; apply step_keeps; exact Ht|exact HI]
    | |auto].
  cbn beta. intros _ s1 H1.
  rewrite wp_bind, wp_emit, wp_bind, wp_modify, wp_bind, wp_gets,
    wp_bind, wp_gets, wp_emit.
  exact H1.
Qed.

(** The run: the invariant holds when it ends, however it ends; apart
    from the exceptions in [E], it can only end by one of its two
    assertions, the final one only if [overlap] is true of positions
    satisfying the invariant. *)
Lemma simulate_keeps s :
  I (r s) ->
  wp (simulate fast_m slow_m rtv g)
    (fun _ t => I (r t) /\ overlap (hs fast_m slow_m g) (box g) (r t) = false)
    (fun e t =>
       I (r t) /\
       (E e \/
        (e = AssertionError "Overlap in initial configuration" /\ t = s /\
         overlap (hs fast_m slow_m g) (box g) (r s) = true) \/
        (e = AssertionError "Overlap in final configuration" /\
         overlap (hs fast_m slow_m g) (box g) (r t) = true)))
    s.
Proof.
  intros HI. unfold simulate.
  rewrite wp_bind, wp_gets, wp_bind, wp_assert.
  destruct (overlap (hs fast_m slow_m g) (box g) (r s)) eqn:Ov0; cbn [negb].
  { split; [exact HI|]. right. left. auto. }
  rewrite wp_bind.
  eapply wp_mono;
    [apply calculate_keeps; [exact HI|discriminate]| |intros e t [? ?]; auto].
  cbn beta. intros vars s1 H1.
  rewrite wp_bind, wp_emit, wp_bind.
  eapply wp_mono;
    [apply (wp_for (fun t => I (r t)));
       [intros blk t _ Ht; apply block_keeps; exact Ht|exact H1]
    | |intros e t [? ?]; auto].
  cbn beta. intros _ s2 H2.
  rewrite wp_bind, wp_emit, wp_bind.
  eapply wp_mono;
    [apply calculate_keeps; [exact H2|discriminate]| |intros e t [? ?]; auto].
  cbn beta. intros vars' s3 H3.
  rewrite wp_bind, wp_gets, wp_bind, wp_assert.
  destruct (overlap (hs fast_m slow_m g) (box g) (r s3)) eqn:Ov1; cbn [negb].
  { split; [exact H3|]. right. right. auto. }
  rewrite wp_bind, wp_emit, wp_emit. cbn. auto.
Qed.

End RunInvariant.

(** ** The range of the stored coordinates *)

Section CoordinateFacts.
Context {rng : Type} (fast_m slow_m : hs_module).
Context (rtv : Q -> vec -> rng -> vec * rng).
Context (reader : string -> result (Z * Q * list vec)).
Implicit Types (s : state rng).

Lemma wrap_closed (a : vec) : vall in_closed (wrap a).
Proof. repeat split; apply wrap1_range. Qed.

Lemma loaded_closed box0 r0 :
  Forall (vall in_closed) (loaded_positions box0 r0).
Proof.
  unfold loaded_positions. apply List.Forall_forall. intros v Hv.
  apply in_map_iff in Hv as (a & <- & _). apply wrap_closed.
Qed.

Lemma accept_closed (cur : list vec) (i : nat) (ri : vec) :
  Forall (vall in_closed) cur -> Forall (vall in_closed) (<[i := wrap ri]> cur).
Proof. intros H. apply Forall_insert; [exact H|apply wrap_closed]. Qed.

(** Checking and reading the parameters leaves the positions alone. *)
Lemma read_parameters_positions nml s :
  wp (read_parameters nml) (fun _ t => r t = r s) (fun _ t => r t = r s) s.
Proof.
  unfold read_parameters. rewrite wp_bind.
  eapply wp_mono;
    [apply (wp_for (fun t => r t = r s) (fun _ t => r t = r s));
       [|reflexivity]| |auto].
  - intros [key val] t _ Ht. unfold check_item.
    destruct (dict_get defaults key) as [d|].
    + rewrite wp_assert. destruct (pytype_eqb _ _); exact Ht.
    + rewrite wp_emit. exact Ht.
  - cbn beta. intros _ t Ht. unfold as_int, as_float, as_bool.
    repeat (rewrite wp_bind;
            match goal with
            | |- wp (match ?v with _ => _ end) _ _ _ =>
                destruct v; try (rewrite wp_raise; exact Ht); rewrite wp_ret
            end).
    rewrite wp_ret. exact Ht.
Qed.

(** Loading and running establishes, and keeps, a property of the
    positions that holds of every loaded configuration, that accepted
    moves keep, and that holds before. *)
Lemma load_and_run_keeps (I : list vec -> Prop) params entropy s :
  (forall box0 r0, I (loaded_positions box0 r0)) ->
  (forall cur i ri, I cur -> I (<[i := wrap ri]> cur)) ->
  I (r s) ->
  wp (load_and_run fast_m slow_m rtv reader params entropy)
    (fun _ t => I (r t)) (fun _ t => I (r t)) s.
Proof.
  intros Hload Hacc HI. destruct params as [[[[nb ns] dm] eb] fa].
  unfold load_and_run.
  do 6 (rewrite wp_bind; first [rewrite wp_emit|rewrite wp_modify]).
  rewrite wp_bind, wp_lift.
  destruct (reader _) as [[[n0 box0] r0]|e]; [|exact HI].
  do 2 (rewrite wp_bind, wp_emit).
  rewrite wp_bind, wp_lift.
  destruct (pydiv _ _) as [density|e]; [|exact HI].
  rewrite wp_bind, wp_emit, wp_bind, wp_modify, wp_bind, wp_gets,
    wp_bind, wp_modify.
  eapply wp_mono.
  - apply (simulate_keeps fast_m slow_m rtv _ I (fun _ => True)); auto.
    apply Hload.
  - cbn beta. intros _ t [Ht _]. exact Ht.
  - cbn beta. intros e t [Ht _]. exact Ht.
Qed.

Lemma main_keeps (I : list vec -> Prop) nml entropy s :
  (forall box0 r0, I (loaded_positions box0 r0)) ->
  (forall cur i ri, I cur -> I (<[i := wrap ri]> cur)) ->
  I (r s) ->
  wp (main fast_m slow_m rtv reader nml entropy)
    (fun _ t => I (r t)) (fun _ t => I (r t)) s.
Proof.
  intros Hload Hacc HI. unfold main.
  rewrite wp_bind, wp_modify, wp_bind, wp_emit, wp_bind, wp_emit, wp_bind.
  eapply wp_mono; [apply read_parameters_positions| |].
  - cbn beta. intros params t Ht.
    apply load_and_run_keeps; auto. rewrite Ht. exact HI.
  - cbn beta. intros e t Ht. rewrite Ht. exact HI.
Qed.

(** C6, as the code has it.  Every coordinate of every stored position
    lies in the closed interval [-0.5, 0.5]: (a) in every loaded
    configuration, (b) after every trial move, accepted or not, of a
    configuration of which it holds, (c) when the script ends, however it
    ends, if it held of the positions before. *)
Theorem coordinates_in_closed_interval :
  (forall box0 r0, Forall (vall in_closed) (loaded_positions box0 r0)) /\
  (forall g i s res s',
     Forall (vall in_closed) (r s) ->
     move_atom fast_m slow_m rtv g i s = (res, s') ->
     Forall (vall in_closed) (r s')) /\
  (forall nml entropy s res s',
     Forall (vall in_closed) (r s) ->
     main fast_m slow_m rtv reader nml entropy s = (res, s') ->
     Forall (vall in_closed) (r s')).
Proof.
  split; [exact loaded_closed|]. split.
  - intros g i s res s' HI H.
    apply move_atom_inv in H
      as [(_ & _ & ->)|[(_ & _ & ->)|(old & _ & _ & _ & ->)]]; auto.
    unfold after_move. destruct (overlap_1 _ _ _ _); cbn; [exact HI|].
    apply accept_closed. exact HI.
  - intros nml entropy s res s' HI H.
    pose proof (main_keeps (Forall (vall in_closed)) nml entropy s
                  loaded_closed accept_closed HI) as Hwp.
    apply (wp_run _ _ _ _ _ _ Hwp) in H. destruct res; exact H.
Qed.

End CoordinateFacts.

(** C6 as stated fails: an atom at 5 in a box of length 10 is stored at
    0.5, since [np.rint(0.5)] is 0; the run below ends normally with such
    a coordinate. *)
Lemma half_open_interval_refuted :
  wrap1 (5 / 10) == 1 # 2 /\
  exists s',
    main Spec.hard_spheres Spec.hard_spheres Spec.random_translate_vector
      reader_example nml_no_block (fun _ => 0) s_initial = (Ok tt, s') /\
    ~ Forall (vall in_half_open) (r s').
Proof.
  split; [vm_compute; reflexivity|].
  eexists. split; [vm_compute; reflexivity|].
  cbn [r]. intros H.
  inversion H as [|? ? _ H1]; subst. inversion H1 as [|? ? Hv _]; subst.
  destruct Hv as [[_ Hx] _]. cbn in Hx. vm_compute in Hx. discriminate.
Qed.

(** C6, amended, at the example. *)
Lemma coordinates_in_closed_interval_witness :
  exists s',
    main Spec.hard_spheres Spec.hard_spheres Spec.random_translate_vector
      reader_example nml_example (fun _ => 1 # 3) s_initial = (Ok tt, s') /\
    Forall (vall in_closed) (r s').
Proof.
  destruct (coordinates_in_closed_interval Spec.hard_spheres
              Spec.hard_spheres Spec.random_translate_vector reader_example)
    as (_ & _ & Hmain).
  destruct (main Spec.hard_spheres Spec.hard_spheres
              Spec.random_translate_vector reader_example nml_example
              (fun _ => 1 # 3) s_initial) as [res s'] eqn:Hrun.
  assert (Hres : res = Ok tt).
  { apply (f_equal fst) in Hrun. vm_compute in Hrun. now symmetry. }
  subst res. exists s'. split; [reflexivity|].
  apply (Hmain nml_example (fun _ => 1 # 3) s_initial (Ok tt) s');
    [constructor|exact Hrun].
Defined.

(** ** Minimum images and the overlap tests of the specification *)

Section OverlapFacts.

(** [rint x] is an integer within one half of [x], and even when exactly
    one half away. *)
Lemma rint_spec x :
  exists z,
    rint x = inject_Z z /\
    - (1 # 2) <= x - inject_Z z <= 1 # 2 /\
    (x - inject_Z z == 1 # 2 \/ x - inject_Z z == - (1 # 2) ->
     Z.even z = true).
Proof.
  unfold rint.
  pose proof (Qfloor_le x) as Hlo. pose proof (Qlt_floor x) as Hhi.
  rewrite inject_Z_plus in Hhi. change (inject_Z 1) with 1 in Hhi.
  destruct (Qcompare_spec (x - inject_Z (Qfloor x)) (1 # 2)) as [E|L|G].
  - destruct (Z.even (Qfloor x)) eqn:Ev.
    + exists (Qfloor x). split; [reflexivity|]. split; [lra|auto].
    + exists (Qfloor x + 1)%Z. split; [reflexivity|].
      rewrite inject_Z_plus. change (inject_Z 1) with 1.
      split; [lra|]. intros _.
      rewrite Z.add_1_r, Z.even_succ, <- Z.negb_even, Ev. reflexivity.
  - exists (Qfloor x). split; [reflexivity|]. split; [lra|].
    intros [H|H]; lra.
  - exists (Qfloor x + 1)%Z. split; [reflexivity|].
    rewrite inject_Z_plus. change (inject_Z 1) with 1.
    split; [lra|]. intros [H|H]; lra.
Qed.

(** There is only one such integer. *)
Lemma rint_unique x z :
  - (1 # 2) <= x - inject_Z z <= 1 # 2 ->
  (x - inject_Z z == 1 # 2 \/ x - inject_Z z == - (1 # 2) -> Z.even z = true) ->
  rint x = inject_Z z.
Proof.
  intros Hz Hev. destruct (rint_spec x) as (z0 & -> & Hz0 & Hev0).
  f_equal.
  assert (Hd : inject_Z (z - z0) == inject_Z z - inject_Z z0).
  { unfold Zminus. rewrite inject_Z_plus, inject_Z_opp. ring. }
  assert (H1 : inject_Z (-1) <= inject_Z (z - z0)).
  { rewrite Hd. change (inject_Z (-1)) with (-1 # 1). lra. }
  assert (H2 : inject_Z (z - z0) <= inject_Z 1).
  { rewrite Hd. change (inject_Z 1) with 1. lra. }
  rewrite <- Zle_Qle in H1, H2.
  assert (Hcases : (z = z0 \/ z = z0 + 1 \/ z = z0 - 1)%Z) by lia.
  destruct Hcases as [->|[->| ->]]; [reflexivity| |]; exfalso.
  - rewrite inject_Z_plus in Hz, Hev. change (inject_Z 1) with 1 in Hz, Hev.
    assert (E0 : Z.even z0 = true) by (apply Hev0; left; lra).
    assert (E1 : Z.even (z0 + 1) = true) by (apply Hev; right; lra).
    rewrite Z.add_1_r, Z.even_succ, <- Z.negb_even, E0 in E1. discriminate.
  - assert (Hm : inject_Z (z0 - 1) == inject_Z z0 - 1).
    { unfold Zminus. rewrite inject_Z_plus, inject_Z_opp. reflexivity. }
    rewrite Hm in Hz, Hev.
    assert (E0 : Z.even z0 = true) by (apply Hev0; right; lra).
    assert (E1 : Z.even (z0 - 1) = true) by (apply Hev; left; lra).
    rewrite Z.sub_1_r, Z.even_pred, <- Z.negb_even, E0 in E1. discriminate.
Qed.

(** Rounding halves to even is odd-symmetric. *)
Lemma rint_opp x : rint (- x) == - rint x.
Proof.
  destruct (rint_spec x) as (z & Hr & Hz & Hev).
  rewrite Hr, (rint_unique (- x) (- z)).
  - rewrite inject_Z_opp. reflexivity.
  - rewrite inject_Z_opp. lra.
  - rewrite inject_Z_opp, Z.even_opp. intros [H|H]; apply Hev; lra.
Qed.

Lemma wrap1_comp x y : x == y -> wrap1 x == wrap1 y.
Proof. intros H. unfold wrap1. now rewrite (rint_comp _ _ H), H. Qed.

Lemma wrap1_opp x : wrap1 (- x) == - wrap1 x.
Proof. unfold wrap1. rewrite rint_opp. ring. Qed.

Lemma wrap1_swap x y : wrap1 (y - x) == - wrap1 (x - y).
Proof.
  rewrite <- wrap1_opp. apply wrap1_comp. ring.
Qed.

(** The minimum-image distance is symmetric. *)
Lemma squaredDistance_sym a b :
  Spec.squaredDistance a b == Spec.squaredDistance b a.
Proof.
  unfold Spec.squaredDistance, Spec.minimumImageDelta, sum_sq, wrap, vsub,
    vzip, vmap. cbn [vx vy vz].
  rewrite (wrap1_swap (vx b) (vx a)), (wrap1_swap (vy b) (vy a)),
    (wrap1_swap (vz b) (vz a)).
  ring.
Qed.

Lemma violates_too_close box a b :
  Spec.violates box a b = true <-> too_close box a b.
Proof. apply Qltb_lt. Qed.

Lemma violates_false box a b :
  Spec.violates box a b = false <-> ~ too_close box a b.
Proof.
  rewrite <- violates_too_close. destruct (Spec.violates box a b); split;
    congruence.
Qed.

Lemma too_close_sym box a b : too_close box a b -> too_close box b a.
Proof. unfold too_close. now rewrite (squaredDistance_sym a b). Qed.

Lemma overlapsWithOne_false trial box (others : list vec) :
  Spec.overlapsWithOne trial box others = false <->
  forall p, In p others -> ~ too_close box trial p.
Proof.
  unfold Spec.overlapsWithOne. split.
  - intros H p Hp Hc. apply violates_too_close in Hc.
    assert (existsb (Spec.violates box trial) others = true)
      by (apply existsb_exists; eauto).
    congruence.
  - intros H. destruct (existsb _ _) eqn:E; [|reflexivity].
    apply existsb_exists in E as (p & Hp & Hv).
    apply violates_too_close in Hv. exfalso. eapply H; eauto.
Qed.

(** [overlapsAny] is false exactly of the configurations without
    overlap. *)
Lemma overlapsAny_false box (cur : list vec) :
  Spec.overlapsAny box cur = false <-> no_overlap box cur.
Proof.
  induction cur as [|p rest IH]; cbn [Spec.overlapsAny].
  - split; [|reflexivity]. intros _ i j a b _ Ha. discriminate.
  - rewrite orb_false_iff, overlapsWithOne_false, IH. split.
    + intros [Hp Hrest] i j a b Hij Ha Hb.
      destruct i as [|i], j as [|j]; cbn in Ha, Hb.
      * congruence.
      * inversion Ha; subst a. apply Hp.
        apply list_elem_of_In, list_elem_of_lookup. eauto.
      * inversion Hb; subst b. intros Hc. apply too_close_sym in Hc.
        revert Hc. apply Hp.
        apply list_elem_of_In, list_elem_of_lookup. eauto.
      * apply (Hrest i j); auto.
    + intros H. split.
      * intros q Hq. apply list_elem_of_In, list_elem_of_lookup in Hq as [k Hk].
        apply (H 0%nat (S k)); auto.
      * intros i j a b Hij Ha Hb. apply (H (S i) (S j)); auto.
Qed.

(** Replacing an atom by a position that [overlapsWithOne] clears against
    all the other atoms keeps a configuration free of overlap. *)
Lemma accept_no_overlap box (cur : list vec) i old ri :
  no_overlap box cur -> cur !! i = Some old ->
  Spec.overlapsWithOne ri box (delete i cur) = false ->
  no_overlap box (<[i := ri]> cur).
Proof.
  intros Hno Hold Hone. rewrite overlapsWithOne_false in Hone.
  assert (Hother : forall k b, k <> i -> cur !! k = Some b ->
                               ~ too_close box ri b).
  { intros k b Hk Hb. apply Hone.
    apply list_elem_of_In, list_elem_of_lookup.
    destruct (Nat.lt_ge_cases k i) as [Hlt|Hge].
    - exists k. now rewrite list_lookup_delete_lt.
    - exists (k - 1)%nat. rewrite list_lookup_delete_ge by lia.
      replace (S (k - 1)) with k by lia. exact Hb. }
  intros j k a b Hjk Ha Hb.
  apply list_lookup_insert_Some in Ha as [(<- & <- & _)|(Hj & Ha)];
    apply list_lookup_insert_Some in Hb as [(Hki & <- & _)|(Hk & Hb)].
  - congruence.
  - apply (Hother k); auto.
  - subst k. intros Hc. apply too_close_sym in Hc. revert Hc.
    apply (Hother j); auto.
  - apply (Hno j k); auto.
Qed.

End OverlapFacts.

(** ** Accepted moves never create an overlap *)

Section NoOverlapFacts.
Context {rng : Type} (rtv : Q -> vec -> rng -> vec * rng).
Implicit Types (s : state rng) (g : globals).

Lemma hs_HS g : hs HS HS g = HS.
Proof. unfold hs. now destruct (fast g). Qed.

Lemma HS_accept g (cur : list vec) i old ri :
  no_overlap (box g) cur -> cur !! i = Some old ->
  overlap_1 (hs HS HS g) (wrap ri) (box g) (delete i cur) = false ->
  no_overlap (box g) (<[i := wrap ri]> cur).
Proof. rewrite hs_HS. apply accept_no_overlap. Qed.

(** A run that starts without overlap ends without overlap, and not by
    an assertion. *)
Lemma simulate_no_overlap g s res s' :
  no_overlap (box g) (r s) ->
  simulate HS HS rtv g s = (res, s') ->
  no_overlap (box g) (r s') /\
  forall e, res = Raise e -> ~ is_assertion_error e.
Proof.
  intros Hno H.
  pose proof (simulate_keeps HS HS rtv g (no_overlap (box g))
                (fun e => ~ is_assertion_error e)
                (HS_accept g)) as Hwp.
  specialize (Hwp ltac:(intros _ []) ltac:(intros _ []) ltac:(intros _ [])
                  ltac:(intros _ _ _ _ _ []) s Hno).
  apply (wp_run _ _ _ _ _ _ Hwp) in H.
  destruct res as [[]|e].
  - split; [apply H|]. discriminate.
  - destruct H as [Hno' [HE|[(-> & -> & Hov)|(-> & Hov)]]].
    + split; [exact Hno'|]. intros e' He'. inversion He'; subst. exact HE.
    + exfalso. rewrite hs_HS in Hov. apply overlapsAny_false in Hno. cbn in Hov.
      congruence.
    + exfalso. rewrite hs_HS in Hov. apply overlapsAny_false in Hno'.
      cbn in Hov. congruence.
Qed.

(** A run that starts without overlap, with as many positions as atoms,
    at least one atom, and no division by zero ahead, returns. *)
Lemma simulate_returns g s :
  no_overlap (box g) (r s) ->
  length (r s) = Z.to_nat (n g) -> (0 < n g)%Z ->
  ~ box g == 0 -> ~ eps_box g == 0 -> ~ 1 + eps_box g == 0 ->
  exists s', simulate HS HS rtv g s = (Ok tt, s').
Proof.
  intros Hno Hlen Hn N3 N2 N1.
  assert (Nn : ~ inject_Z (n g) == 0).
  { change 0 with (inject_Z 0). rewrite inject_Z_injective. lia. }
  pose proof (simulate_keeps HS HS rtv g
                (fun cur => no_overlap (box g) cur /\
                            length cur = Z.to_nat (n g))
                (fun _ => False)) as Hwp.
  cbn beta in Hwp.
  assert (Hacc : forall (cur : list vec) i old ri,
             no_overlap (box g) cur /\ length cur = Z.to_nat (n g) ->
             cur !! i = Some old ->
             overlap_1 (hs HS HS g) (wrap ri) (box g) (delete i cur) = false ->
             no_overlap (box g) (<[i:=wrap ri]> cur) /\
             length (<[i:=wrap ri]> cur) = Z.to_nat (n g)).
  { intros cur i old ri [Hc Hl] Hold Hov. split.
    - eapply HS_accept; eauto.
    - now rewrite length_insert. }
  assert (Hidx : forall (cur : list vec) (i : nat),
             no_overlap (box g) cur /\ length cur = Z.to_nat (n g) ->
             (i < Z.to_nat (n g))%nat -> cur !! i = None -> False).
  { intros cur i [_ Hl] Hi Hnone. apply lookup_ge_None in Hnone. lia. }
  specialize (Hwp Hacc N3 ltac:(tauto) Nn Hidx s (conj Hno Hlen)).
  destruct (simulate HS HS rtv g s) as [[[]|e] s'] eqn:H; [eauto|exfalso].
  unfold wp in Hwp. rewrite H in Hwp.
  destruct Hwp as [[Hno' _] [[]|[(-> & -> & Hov)|(-> & Hov)]]].
  - rewrite hs_HS in Hov. apply overlapsAny_false in Hno. cbn in Hov.
    congruence.
  - rewrite hs_HS in Hov. apply overlapsAny_false in Hno'. cbn in Hov.
    congruence.
Qed.

(** C3.  With the overlap tests of the specification: (a) a trial move,
    accepted or not, of a configuration without overlap leaves a
    configuration without overlap; (b) a run whose initial configuration
    passes the check ends in a configuration without overlap and never by
    an assertion, so the final check succeeds; (c) such a run returns
    when there are as many positions as atoms, at least one atom, and no
    division by zero. *)
Theorem no_overlap_preserved g s :
  (forall i res s',
     no_overlap (box g) (r s) ->
     move_atom HS HS rtv g i s = (res, s') ->
     no_overlap (box g) (r s')) /\
  (forall res s',
     overlap (hs HS HS g) (box g) (r s) = false ->
     simulate HS HS rtv g s = (res, s') ->
     no_overlap (box g) (r s') /\
     res <> Raise (AssertionError "Overlap in final configuration") /\
     (res = Ok tt -> overlap (hs HS HS g) (box g) (r s') = false)) /\
  (overlap (hs HS HS g) (box g) (r s) = false ->
   length (r s) = Z.to_nat (n g) -> (0 < n g)%Z ->
   ~ box g == 0 -> ~ eps_box g == 0 -> ~ 1 + eps_box g == 0 ->
   exists s', simulate HS HS rtv g s = (Ok tt, s')).
Proof.
  split; [|split].
  - intros i res s' Hno H.
    apply move_atom_inv in H
      as [(_ & _ & ->)|[(_ & _ & ->)|(old & _ & Hold & _ & ->)]]; auto.
    unfold after_move, trial.
    destruct (overlap_1 _ _ _ _) eqn:Ov; cbn; [exact Hno|].
    eapply HS_accept; eauto.
  - intros res s' Hov H. rewrite hs_HS in *. cbn in Hov.
    apply overlapsAny_false in Hov.
    destruct (simulate_no_overlap g s res s' Hov H) as [Hno' Hexc].
    split; [exact Hno'|]. split.
    + intros ->. apply (Hexc _ eq_refl). exact Logic.I.
    + intros _. cbn. now apply overlapsAny_false.
  - intros Hov. rewrite hs_HS in Hov. cbn in Hov.
    apply overlapsAny_false in Hov. now apply simulate_returns.
Qed.

End NoOverlapFacts.

(** C3 at the example: two blocks of one step from two distant atoms. *)
Lemma no_overlap_preserved_witness :
  exists s',
    simulate HS HS Spec.random_translate_vector g_short s_example
    = (Ok tt, s') /\
    no_overlap 10 (r s') /\
    overlap HS 10 (r s') = false.
Proof.
  destruct (no_overlap_preserved Spec.random_translate_vector g_short
              s_example) as (_ & Hrun & Hret).
  destruct Hret as [s' Hs'];
    [ vm_compute; reflexivity | reflexivity | reflexivity
    | vm_compute; discriminate | vm_compute; discriminate
    | vm_compute; discriminate | ].
  exists s'. split; [exact Hs'|].
  destruct (Hrun (Ok tt) s') as (Hno & _ & Hov);
    [vm_compute; reflexivity | exact Hs' | ].
  split; [exact Hno|]. exact (Hov eq_refl).
Defined.

(** C8 at the example: the run of two blocks writes cnf.001, cnf.002 and
    cnf.out, each block's checkpoint right after its end. *)
Lemma block_checkpoints_written_witness :
  exists s' c1,
    simulate HS HS Spec.random_translate_vector g_short s_example
    = (Ok tt, s') /\
    List.filter is_checkpointing (out s') =
      [ Ev_blk_end 1; checkpoint g_short "001" c1;
        Ev_blk_end 2; checkpoint g_short "002" (r s');
        checkpoint g_short "out" (r s') ].
Proof.
  destruct (block_checkpoints_written HS HS Spec.random_translate_vector
              g_short s_example) as [_ Hrun].
  destruct (simulate HS HS Spec.random_translate_vector g_short s_example)
    as [res s'] eqn:Hs.
  assert (Hres : res = Ok tt).
  { apply (f_equal fst) in Hs. vm_compute in Hs. now symmetry. }
  subst res.
  destruct (Hrun s' eq_refl) as (cfgs & new & Hout & Hlen & Hlast & Hfil).
  change (Z.to_nat (nblock g_short)) with 2%nat in Hlen.
  destruct cfgs as [|c1 cfgs]; [inversion Hlen|].
  destruct cfgs as [|c2 cfgs]; [inversion Hlen|].
  destruct cfgs as [|c3 cfgs]; [|inversion Hlen].
  exists s', c1. split; [reflexivity|].
  change (List.last [c1; c2] (r s_example)) with c2 in Hlast. subst c2.
  rewrite Hout. exact Hfil.
Defined.

(** ** Positions equal as numbers *)

Section VeqFacts.


Lemma veq_sym a b : veq a b -> veq b a.
Proof. intros (Hx & Hy & Hz). repeat split; now symmetry. Qed.




Lemma in_closed_comp x y : x == y -> in_closed x -> in_closed y.
Proof. unfold in_closed. intros E H. now rewrite <- E. Qed.

Lemma vall_closed_comp a b : veq a b -> vall in_closed a -> vall in_closed b.
Proof.
  intros (Hx & Hy & Hz) (Cx & Cy & Cz).
  repeat split; eapply in_closed_comp; eauto.
Qed.








End VeqFacts.

(** ** Runs without displacement *)

Section NullMoves.
Context {rng : Type} (rtv : Q -> vec -> rng -> vec * rng).
Implicit Types (s t : state rng).

(** The move generator, asked for a step of length zero, proposes the
    position it was given. *)
Hypothesis rtv_zero :
  forall m old gen0, m == 0 -> veq (fst (rtv m old gen0)) old.

Variable g : globals.
Variable r0 : list vec.
Hypothesis Hdr : dr_max g == 0.
Hypothesis Hbox : ~ box g == 0.
Hypothesis Hno : no_overlap (box g) r0.
Hypothesis Hclosed : Forall (vall in_closed) r0.
Hypothesis Hlen : length r0 = Z.to_nat (n g).





Hypothesis Hn : (0 < n g)%Z.
Hypothesis Heps : ~ eps_box g == 0.
Hypothesis Heps1 : ~ 1 + eps_box g == 0.


Variable tr0 : list event.

Local Notation "'Null'" :=
  (null_run r0 tr0 (pressure_estimate (n_overlap HS) g r0)).






End NullMoves.

(** ** The scenario: two atoms, box length 10, no displacement *)

Section Scenario.
Context {rng : Type} (rtv : Q -> vec -> rng -> vec * rng).
Implicit Types (s : state rng).

Hypothesis rtv_zero :
  forall m old gen0, m == 0 -> veq (fst (rtv m old gen0)) old.


End Scenario.




(** * Further properties of the script *)

(** ** [calculate] *)

Section CalculateMore.
Context {rng : Type} (fast_m slow_m : hs_module).
Implicit Types (s : state rng) (g : globals).

(** [calculate] reads the globals and writes none of them.  Given a
    heading it prints the heading and hands the pressure alone, not the
    move ratio, to [write_variables]; without a heading, and whenever it
    raises, it prints nothing. *)
Theorem calculate_side_effects g string s res s' :
  calculate fast_m slow_m g string s = (res, s') ->
  r s' = r s /\ moves s' = moves s /\ m_ratio s' = m_ratio s /\
  sav_tag s' = sav_tag s /\ gen s' = gen s /\
  match res, string with
  | Ok vars, Some heading =>
      exists m_r p_f,
        vars = [m_r; p_f] /\
        out s' = out s ++ [Ev_print heading; Ev_write_variables [p_f]]
  | _, _ => out s' = out s
  end.
Proof.
  intros H.
  assert (Hwp : wp (calculate fast_m slow_m g string)
    (fun vars t =>
       r t = r s /\ moves t = moves s /\ m_ratio t = m_ratio s /\
       sav_tag t = sav_tag s /\ gen t = gen s /\
       match string with
       | Some heading =>
           exists m_r p_f,
             vars = [m_r; p_f] /\
             out t = out s ++ [Ev_print heading; Ev_write_variables [p_f]]
       | None => out t = out s
       end)
    (fun _ t => t = s) s).
  { apply calculate_wp; [reflexivity|reflexivity|].
    intros mval _ _ _ _ vars. destruct string as [heading|]; cbn.
    - repeat (split; [reflexivity|]). eexists _, _. split; [reflexivity|].
      now rewrite <- app_assoc.
    - auto 10. }
  apply (wp_run _ _ _ _ _ _ Hwp) in H.
  destruct res as [vars|e].
  - destruct H as (? & ? & ? & ? & ? & Hout).
    repeat (split; [assumption|]). destruct string; exact Hout.
  - subst s'. repeat (split; [reflexivity|]). destruct string; reflexivity.
Qed.

(** The pressure [calculate] reports is the ideal-gas term exactly when
    [n_overlap] counts no overlap in the contracted box. *)
Theorem pressure_ideal_iff_no_overlap g string s vars s' :
  calculate fast_m slow_m g string s = (Ok vars, s') ->
  exists m_r p_f,
    vars = [m_r; p_f] /\
    (val p_f == inject_Z (n g) / box g ^ 3 <->
     n_overlap (hs fast_m slow_m g) (box g / (1 + eps_box g)) (r s) = 0%Z).
Proof.
  intros H. apply calculate_inv in H as ((_ & N2 & N3) & mval & _ & -> & _).
  eexists _, _. split; [reflexivity|]. cbn [val].
  unfold pressure_estimate, ideal_gas, vir.
  set (c := n_overlap _ _ _).
  assert (Hi2 : ~ / (3 * eps_box g) == 0).
  { intros E. apply N2. rewrite <- (Qinv_involutive (3 * eps_box g)), E.
    reflexivity. }
  assert (Hi3 : ~ / box g ^ 3 == 0).
  { intros E. apply N3. rewrite <- (Qinv_involutive (box g ^ 3)), E.
    reflexivity. }
  split.
  - intros E.
    assert (E0 : inject_Z c / (3 * eps_box g) / box g ^ 3 == 0) by lra.
    unfold Qdiv in E0.
    apply Qmult_integral in E0 as [E0|E0]; [|contradiction].
    apply Qmult_integral in E0 as [E0|E0]; [|contradiction].
    change 0 with (inject_Z 0) in E0.
    exact (proj1 (inject_Z_injective c 0) E0).
  - intros E. subst c. rewrite E. unfold Qdiv. change (inject_Z 0) with 0.
    rewrite !Qmult_0_l. lra.
Qed.

End CalculateMore.

(** [calculate_side_effects] at the example. *)
Lemma calculate_side_effects_witness :
  exists vars s' p_f,
    calculate HS HS g_example (Some "Initial values"%string) s_example
    = (Ok vars, s') /\
    r s' = r s_example /\
    out s' = [Ev_print "Initial values"; Ev_write_variables [p_f]].
Proof.
  destruct (calculate HS HS g_example (Some "Initial values"%string) s_example)
    as [res s'] eqn:Hrun.
  destruct (calculate_side_effects HS HS g_example
              (Some "Initial values"%string) s_example res s' Hrun)
    as (Hr & _ & _ & _ & _ & Hout).
  destruct res as [vars|e].
  - destruct Hout as (m_r & p_f & _ & Hout).
    exists vars, s', p_f. split; [reflexivity|]. split; [exact Hr|exact Hout].
  - exfalso. apply (f_equal fst) in Hrun. vm_compute in Hrun. discriminate.
Defined.

(** [pressure_ideal_iff_no_overlap] at the example. *)
Lemma pressure_ideal_iff_no_overlap_witness :
  exists vars s' m_r p_f,
    calculate HS HS g_example (Some "Initial values"%string) s_example
    = (Ok vars, s') /\
    vars = [m_r; p_f] /\ val p_f == inject_Z 2 / 10 ^ 3.
Proof.
  destruct (calculate HS HS g_example (Some "Initial values"%string) s_example)
    as [[vars|e] s'] eqn:Hrun.
  - destruct (pressure_ideal_iff_no_overlap HS HS g_example
                (Some "Initial values"%string) s_example vars s' Hrun)
      as (m_r & p_f & Hv & Hiff).
    exists vars, s', m_r, p_f. split; [reflexivity|]. split; [exact Hv|].
    apply Hiff. vm_compute. reflexivity.
  - exfalso. apply (f_equal fst) in Hrun. vm_compute in Hrun. discriminate.
Defined.

(** ** Sweeps and steps *)

Section SweepMore.
Context {rng : Type} (fast_m slow_m : hs_module).
Context (rtv : Q -> vec -> rng -> vec * rng).
Implicit Types (s : state rng) (g : globals).

Lemma after_move_quiet g i s old :
  (moves s <= moves (after_move fast_m slow_m rtv g i s old))%Z /\
  (moves (after_move fast_m slow_m rtv g i s old) = moves s ->
   r (after_move fast_m slow_m rtv g i s old) = r s).
Proof.
  unfold after_move. destruct (overlap_1 _ _ _ _); cbn; split;
    intros; try reflexivity; lia.
Qed.

(** The counter never goes down in a sweep, and stays where it was only
    if the positions do. *)
Lemma sweep_prefix_quiet g k s sk :
  sweep_prefix fast_m slow_m rtv g k s = (Ok tt, sk) ->
  (moves s <= moves sk)%Z /\ (moves sk = moves s -> r sk = r s).
Proof.
  revert sk. induction k as [|k IH]; intros sk H.
  - inversion H; subst. split; [lia|reflexivity].
  - rewrite sweep_prefix_S in H.
    apply bind_Ok in H as ([] & sk0 & Hpre & Hmove).
    destruct (IH _ Hpre) as [Hle Heq].
    apply move_atom_inv in Hmove
      as [(? & _)|[(? & _)|(old & _ & _ & _ & ->)]]; try discriminate.
    destruct (after_move_quiet g k sk0 old) as [Hle' Heq'].
    split; [lia|]. intros E.
    rewrite Heq' by lia. apply Heq. lia.
Qed.

(** A step whose move ratio is 0 has left every position where it was. *)
Theorem no_accept_no_change g s s' :
  step fast_m slow_m rtv g s = (Ok tt, s') ->
  (moves s' = 0%Z -> r s' = r s) /\
  (forall ratio, m_ratio s' = Some ratio -> ratio == 0 -> moves s' = 0%Z).
Proof.
  intros H. apply step_inv in H as (s1 & Hsweep & Nn & ->).
  cbn [after_step moves r m_ratio set_out set_m_ratio].
  split.
  - intros Hm.
    destruct (sweep_prefix_quiet g _ _ _ Hsweep) as [_ Heq].
    cbn in Heq. now apply Heq.
  - intros ratio Hr Hz. inversion Hr; subst ratio; clear Hr.
    unfold Qdiv in Hz. apply Qmult_integral in Hz as [Hz|Hz].
    + change 0 with (inject_Z 0) in Hz.
      exact (proj1 (inject_Z_injective _ 0) Hz).
    + exfalso. apply Nn.
      rewrite <- (Qinv_involutive (inject_Z (n g))), Hz. reflexivity.
Qed.

(** The number of rows of the position array is the same when the run
    ends, however it ends. *)
Theorem positions_count_kept g s res s' :
  simulate fast_m slow_m rtv g s = (res, s') ->
  length (r s') = length (r s).
Proof.
  intros H.
  pose proof (simulate_keeps fast_m slow_m rtv g
                (fun cur => length cur = length (r s)) (fun _ => True)) as Hwp.
  cbn beta in Hwp.
  assert (Hacc : forall (cur : list vec) (i : nat) (old ri : vec),
             length cur = length (r s) -> cur !! i = Some old ->
             overlap_1 (hs fast_m slow_m g) (wrap ri) (box g) (delete i cur)
             = false ->
             length (<[i:=wrap ri]> cur) = length (r s)).
  { intros cur i old ri Hl _ _. now rewrite length_insert. }
  specialize (Hwp Hacc ltac:(auto) ltac:(auto) ltac:(auto) ltac:(auto)
                  s eq_refl).
  apply (wp_run _ _ _ _ _ _ Hwp) in H. destruct res; apply H.
Qed.

(** As long as there are rows, the sweep goes on. *)
Lemma sweep_prefix_rows g k s :
  ~ box g == 0 -> (k <= length (r s))%nat ->
  exists sk,
    sweep_prefix fast_m slow_m rtv g k s = (Ok tt, sk) /\
    out sk = out s /\ m_ratio sk = m_ratio s /\ sav_tag sk = sav_tag s /\
    length (r sk) = length (r s).
Proof.
  intros Hbox. induction k as [|k IH]; intros Hk.
  - exists s. auto.
  - destruct IH as (sk & Hpre & Hout & Hm & Ht & Hlen); [lia|].
    destruct (lookup_lt_is_Some_2 (r sk) k) as [old Hold]; [lia|].
    exists (after_move fast_m slow_m rtv g k sk old). split.
    + rewrite sweep_prefix_S. erewrite bind_eq by exact Hpre.
      now apply move_atom_eq.
    + pose proof (move_atom_eq fast_m slow_m rtv g k sk old Hbox Hold) as Hmv.
      apply move_atom_frame in Hmv as (-> & -> & -> & ->). auto.
Qed.

(** With more atoms announced than there are rows, every step ends with
    [IndexError], at the first atom without a row: no sample is handed
    over, and the rows are as many as before. *)
Theorem too_few_rows g s :
  (length (r s) < Z.to_nat (n g))%nat -> ~ box g == 0 ->
  exists s',
    step fast_m slow_m rtv g s = (Raise IndexError, s') /\
    out s' = out s /\ m_ratio s' = m_ratio s /\
    length (r s') = length (r s).
Proof.
  intros Hlt Hbox.
  destruct (sweep_prefix_rows g (length (r s)) (set_moves 0 s) Hbox)
    as (sk & Hpre & Hout & Hm & _ & Hlen); [reflexivity|].
  cbn in Hout, Hm, Hlen.
  assert (Hraise : move_atom fast_m slow_m rtv g (length (r s)) sk
                   = (Raise IndexError, sk)).
  { unfold move_atom, bind, lift, gets, index.
    rewrite (pydiv_nz _ _ Hbox).
    assert (Hnone : r sk !! length (r s) = None)
      by (apply lookup_ge_None; lia).
    now rewrite Hnone. }
  exists sk. split; [|auto].
  unfold step. rewrite bind_eq with (a := tt) (s1 := set_moves 0 s)
    by reflexivity.
  apply bind_raise.
  rewrite (sweep_split fast_m slow_m rtv g (length (r s))) by (cbn; lia).
  erewrite bind_eq by exact Hpre.
  destruct (Z.to_nat (n g) - length (r s))%nat as [|m] eqn:Ed; [lia|].
  cbn [seq for_]. apply bind_raise. exact Hraise.
Qed.

End SweepMore.

(** [no_accept_no_change] at the example: two atoms in contact, each
    pushed towards the other; both trial moves are rejected. *)
Lemma no_accept_no_change_witness :
  exists s',
    step HS HS Spec.random_translate_vector g_example s_contact = (Ok tt, s') /\
    moves s' = 0%Z /\ r s' = r s_contact.
Proof.
  destruct (step HS HS Spec.random_translate_vector g_example s_contact)
    as [res s'] eqn:Hrun.
  assert (Hres : res = Ok tt).
  { apply (f_equal fst) in Hrun. vm_compute in Hrun. now symmetry. }
  subst res.
  destruct (no_accept_no_change HS HS Spec.random_translate_vector
              g_example s_contact s' Hrun) as [Hr _].
  assert (Hm : moves s' = 0%Z).
  { apply (f_equal (fun p => moves (snd p))) in Hrun.
    cbn [snd] in Hrun. rewrite <- Hrun. vm_compute. reflexivity. }
  exists s'. split; [reflexivity|]. split; [exact Hm|exact (Hr Hm)].
Defined.

(** [positions_count_kept] at the example. *)
Lemma positions_count_kept_witness :
  exists res s',
    simulate HS HS Spec.random_translate_vector g_short s_example = (res, s') /\
    length (r s') = 2%nat.
Proof.
  destruct (simulate HS HS Spec.random_translate_vector g_short s_example)
    as [res s'] eqn:Hrun.
  exists res, s'. split; [reflexivity|].
  exact (positions_count_kept HS HS Spec.random_translate_vector g_short
           s_example res s' Hrun).
Defined.

(** [too_few_rows] at the example: three atoms announced, two rows. *)
Lemma too_few_rows_witness :
  exists s',
    step HS HS Spec.random_translate_vector g_three s_example
    = (Raise IndexError, s') /\
    out s' = [] /\ length (r s') = 2%nat.
Proof.
  destruct (too_few_rows HS HS Spec.random_translate_vector g_three s_example)
    as (s' & Hstep & Hout & _ & Hlen);
    [vm_compute; lia | vm_compute; discriminate |].
  exists s'. split; [exact Hstep|]. split; [exact Hout|exact Hlen].
Defined.

(** ** Parameters and loading *)

Section InputMore.
Context {rng : Type} (fast_m slow_m : hs_module).
Context (rtv : Q -> vec -> rng -> vec * rng).
Context (reader : string -> result (Z * Q * list vec)).
Implicit Types (s : state rng) (nml : list (string * json)).

(** The loop over the items stops at the first item that gives a
    documented parameter a value of the wrong type: the message names its
    key, and only the undocumented keys before it have been warned
    about. *)
Theorem first_mistyped_reported pre key val post entropy s :
  (forall item, In item pre -> mistyped item = false) ->
  mistyped (key, val) = true ->
  main fast_m slow_m rtv reader (pre ++ (key, val) :: post) entropy s =
    (Raise (AssertionError (key ++ " has the wrong type")),
     checked (unknown_keys pre) s).
Proof.
  intros Hpre Hbad.
  assert (Hpre' : forallb (fun item => negb (mistyped item)) pre = true).
  { apply forallb_forall. intros item Hin. now rewrite (Hpre item Hin). }
  rewrite main_eq. erewrite bind_raise; [reflexivity|].
  unfold read_parameters. erewrite bind_raise; [reflexivity|].
  rewrite (check_items_fail pre key val post _ Hpre' Hbad).
  now rewrite checked_more.
Qed.

Lemma unknown_keys_all nml :
  (forall key val, In (key, val) nml -> dict_get defaults key = None) ->
  unknown_keys nml = map fst nml.
Proof.
  unfold unknown_keys. induction nml as [|[key val] nml IH]; intros H.
  - reflexivity.
  - cbn [map fst List.filter]. unfold dict_mem at 1.
    rewrite (H key val) by now left. cbn [negb]. f_equal.
    apply IH. intros k v Hin. apply (H k v). now right.
Qed.

(** An input without any documented key, the empty input among them,
    runs with the five defaults, after one warning per key. *)
Theorem undocumented_keys_give_defaults nml entropy s :
  (forall key val, In (key, val) nml -> dict_get defaults key = None) ->
  main fast_m slow_m rtv reader nml entropy s =
    load_and_run fast_m slow_m rtv reader
      (10%Z, 1000%Z, 15 # 100, 5 # 1000, true) entropy
      (checked (map fst nml) s).
Proof.
  intros Hunk.
  assert (Hok : forallb (fun item => negb (mistyped item)) nml = true).
  { apply forallb_forall. intros [key val] Hin. unfold mistyped.
    cbn [fst snd]. now rewrite (Hunk key val Hin). }
  assert (Hnone : forall key d,
             dict_get defaults key = Some d -> dict_get nml key = None).
  { intros key d Hd. destruct (dict_get nml key) as [v|] eqn:E; [|reflexivity].
    apply dict_get_In in E. rewrite (Hunk key v E) in Hd. discriminate. }
  destruct (read_parameters_pass nml (checked [] s) Hok)
    as (nb & ns & dm & eb & fa & Hread & E1 & E2 & E3 & E4 & E5).
  destruct (param_typed nml "nblock" _ Hok eq_refl) as (_ & D1 & _).
  destruct (param_typed nml "nstep" _ Hok eq_refl) as (_ & D2 & _).
  destruct (param_typed nml "dr_max" _ Hok eq_refl) as (_ & D3 & _).
  destruct (param_typed nml "eps_box" _ Hok eq_refl) as (_ & D4 & _).
  destruct (param_typed nml "fast" _ Hok eq_refl) as (_ & D5 & _).
  rewrite E1 in D1. rewrite E2 in D2. rewrite E3 in D3. rewrite E4 in D4.
  rewrite E5 in D5.
  specialize (D1 (Hnone "nblock"%string (JInt 10) eq_refl)).
  specialize (D2 (Hnone "nstep"%string (JInt 1000) eq_refl)).
  specialize (D3 (Hnone "dr_max"%string (JFloat (15 # 100)) eq_refl)).
  specialize (D4 (Hnone "eps_box"%string (JFloat (5 # 1000)) eq_refl)).
  specialize (D5 (Hnone "fast"%string (JBool true) eq_refl)).
  inversion D1; inversion D2; inversion D3; inversion D4; inversion D5.
  subst nb ns dm eb fa.
  rewrite main_eq. erewrite bind_eq by exact Hread.
  now rewrite checked_more, (unknown_keys_all nml Hunk).
Qed.

(** If the configuration cannot be read, the exception of the reader ends
    the script: the parameters have been printed, nothing else has
    happened to the positions, and nothing is written. *)
Theorem unreadable_configuration_fatal nml entropy s e :
  (forall key val d,
     In (key, val) nml -> dict_get defaults key = Some d ->
     type val = type d) ->
  reader (cnf_prefix ++ inp_tag) = Raise e ->
  exists nb ns dm eb fa s',
    main fast_m slow_m rtv reader nml entropy s = (Raise e, s') /\
    out s' = out (checked (unknown_keys nml) s)
             ++ [ Ev_introduction fa;
                  Ev_print_int "Number of blocks" nb;
                  Ev_print_int "Number of steps per block" ns;
                  Ev_print_float "Maximum displacement" dm;
                  Ev_print_float "Pressure scaling parameter" eb ] /\
    r s' = r s /\ gen s' = entropy.
Proof.
  intros Hok Hread. apply no_mistyped_iff in Hok.
  destruct (read_parameters_pass nml (checked [] s) Hok)
    as (nb & ns & dm & eb & fa & Hpar & _).
  exists nb, ns, dm, eb, fa. eexists. split.
  - rewrite main_eq. erewrite bind_eq by exact Hpar.
    rewrite checked_more.
    unfold load_and_run, bind, emit, modify, lift.
    rewrite Hread. reflexivity.
  - cbn. rewrite <- !app_assoc. auto.
Qed.

End InputMore.

(** [first_mistyped_reported] at the example: the warning for "foo"
    comes, the mistyped "nstep" ends the script. *)
Lemma first_mistyped_reported_witness :
  main HS HS Spec.random_translate_vector reader_example nml_mistyped
    (fun _ => 0) s_initial =
  (Raise (AssertionError "nstep has the wrong type"),
   checked ["foo"%string] s_initial).
Proof.
  apply (first_mistyped_reported HS HS Spec.random_translate_vector
           reader_example [("foo"%string, JNull)] "nstep" (JFloat 1)
           [("nblock"%string, JInt 2)]).
  - intros item [<-|[]]. reflexivity.
  - reflexivity.
Defined.

(** [undocumented_keys_give_defaults] at the example. *)
Lemma undocumented_keys_give_defaults_witness :
  main HS HS Spec.random_translate_vector reader_example nml_unknown
    (fun _ => 0) s_initial =
  load_and_run HS HS Spec.random_translate_vector reader_example
    (10%Z, 1000%Z, 15 # 100, 5 # 1000, true) (fun _ => 0)
    (checked ["nblocks"; "seed"]%string s_initial).
Proof.
  apply (undocumented_keys_give_defaults HS HS Spec.random_translate_vector
           reader_example nml_unknown).
  intros key val [H|[H|[]]]; inversion H; reflexivity.
Defined.

(** [unreadable_configuration_fatal] at the example. *)
Lemma unreadable_configuration_fatal_witness :
  exists s',
    main HS HS Spec.random_translate_vector reader_missing nml_example
      (fun _ => 0) s_initial = (Raise (OSError "cnf.inp"), s') /\
    r s' = [].
Proof.
  destruct (unreadable_configuration_fatal HS HS Spec.random_translate_vector
              reader_missing nml_example (fun _ => 0) s_initial
              (OSError "cnf.inp"))
    as (nb & ns & dm & eb & fa & s' & Hmain & _ & Hr & _).
  - intros key val d [H|[H|[H|[]]]] Hd; inversion H; subst;
      cbn in Hd; inversion Hd; reflexivity.
  - reflexivity.
  - exists s'. split; [exact Hmain|exact Hr].
Defined.

(** ** Blocks and runs *)

Section RunMore.
Context {rng : Type} (fast_m slow_m : hs_module).
Context (rtv : Q -> vec -> rng -> vec * rng).
Implicit Types (s t : state rng) (g : globals).

Lemma filter_all {A} (f : A -> bool) (l : list A) :
  forallb f l = true -> List.filter f l = l.
Proof.
  induction l as [|x l IH]; [reflexivity|]. cbn [forallb List.filter].
  intros H. apply andb_true_iff in H as [Hx Hl]. now rewrite Hx, IH.
Qed.

Lemma blocks_samples g (blks : list Z) s s' :
  for_ blks (block fast_m slow_m rtv g) s = (Ok tt, s') ->
  exists new,
    out s' = out s ++ new /\
    length (List.filter is_blk_add new)
    = (length blks * Z.to_nat (nstep g))%nat.
Proof.
  revert s. induction blks as [|blk blks IH]; intros s H.
  - inversion H; subst. exists []. rewrite app_nil_r. auto.
  - cbn [for_] in H. apply bind_Ok in H as ([] & s1 & Hblock & H).
    apply block_inv in Hblock as (samples & Hout1 & Hall & Hlen & _).
    apply IH in H as (new & Hout & Hcount).
    eexists. split.
    + rewrite Hout, Hout1, <- app_assoc. reflexivity.
    + cbn [app List.filter is_blk_add].
      rewrite !List.filter_app, (filter_all _ _ Hall). cbn [List.filter is_blk_add].
      rewrite !length_app, Hcount, Hlen. cbn [length]. lia.
Qed.

(** A run that returns has handed [nblock * nstep] samples to
    [blk_add], no more and no fewer. *)
Theorem samples_per_run g s s' :
  simulate fast_m slow_m rtv g s = (Ok tt, s') ->
  exists new,
    out s' = out s ++ new /\
    length (List.filter is_blk_add new)
    = (Z.to_nat (nblock g) * Z.to_nat (nstep g))%nat.
Proof.
  intros H. apply simulate_inv in H as (s3 & _ & Hblocks & _ & ->).
  apply blocks_samples in Hblocks as (new & Hout & Hcount).
  eexists. cbn [out set_out] in *. split.
  - rewrite Hout, <- !app_assoc. reflexivity.
  - rewrite !List.filter_app, !length_app, Hcount, range_from_length.
    cbn. f_equal. f_equal. lia.
Qed.

Lemma range_from_empty (start stop : Z) :
  (stop <= start)%Z -> range_from start stop = [].
Proof.
  intros H. unfold range_from.
  replace (Z.to_nat (stop - start)) with 0%nat by lia. reflexivity.
Qed.

(** With [nblock <= 0] there is no block: when the initial check passes
    and nothing divides by zero, the run returns, having reported the
    initial and the final values of the same configuration and written it
    as cnf.out; positions, counter and generator are untouched. *)
Theorem run_without_block g s :
  (nblock g <= 0)%Z ->
  overlap (hs fast_m slow_m g) (box g) (r s) = false ->
  ~ 1 + eps_box g == 0 -> ~ eps_box g == 0 -> ~ box g == 0 ->
  simulate fast_m slow_m rtv g s =
    (Ok tt,
     set_out (out s ++ start_trace fast_m slow_m g (r s)
                    ++ finish_trace fast_m slow_m g (r s)) s).
Proof.
  intros Hnb Hov N1 N2 N3.
  assert (Hwp : wp (simulate fast_m slow_m rtv g)
            (fun _ t =>
               t = set_out (out s ++ start_trace fast_m slow_m g (r s)
                                  ++ finish_trace fast_m slow_m g (r s)) s)
            (fun _ _ => False) s).
  { unfold simulate.
    rewrite wp_bind, wp_gets, wp_bind, wp_assert, Hov. cbn [negb].
    rewrite wp_bind. apply calculate_wp; [tauto|discriminate|].
    intros mval Hm _ _ _ vars. cbn in Hm. inversion Hm; subst mval.
    rewrite wp_bind, wp_emit, wp_bind.
    rewrite (range_from_empty 1 (nblock g + 1)) by lia. cbn [for_].
    rewrite wp_ret, wp_bind, wp_emit, wp_bind.
    apply calculate_wp; [tauto|discriminate|].
    intros mval' Hm' _ _ _ vars'. cbn in Hm'. inversion Hm'; subst mval'.
    rewrite wp_bind, wp_gets, wp_bind, wp_assert.
    cbn [r after_calculate set_out]. rewrite Hov. cbn [negb].
    rewrite wp_bind, wp_emit, wp_emit.
    unfold start_trace, finish_trace, headed_variables, checkpoint.
    cbn. rewrite <- !app_assoc. reflexivity. }
  unfold wp in Hwp.
  destruct (simulate fast_m slow_m rtv g s) as [[[]|e] s']; [|contradiction].
  now subst s'.
Qed.

(** With [nstep <= 0] a block has no step: it is begun, ended and
    checkpointed, whatever the configuration. *)
Lemma block_without_step g blk s :
  (nstep g <= 0)%Z ->
  block fast_m slow_m rtv g blk s =
    (Ok tt,
     set_sav_tag (block_tag blk)
       (set_out (out s ++ [Ev_blk_begin; Ev_blk_end blk;
                           Ev_write_cnf_atoms (cnf_prefix ++ block_tag blk)
                             (n g) (box g) (scale (box g) (r s))]) s)).
Proof.
  intros H. unfold block, range.
  replace (Z.to_nat (nstep g)) with 0%nat by lia.
  unfold bind, emit, modify, gets. cbn. rewrite <- !app_assoc. reflexivity.
Qed.

Lemma blocks_without_step g (blks : list Z) s s' :
  (nstep g <= 0)%Z -> Forall (fun blk => (0 <= blk)%Z) blks ->
  for_ blks (block fast_m slow_m rtv g) s = (Ok tt, s') ->
  r s' = r s /\ gen s' = gen s /\ moves s' = moves s /\
  exists new,
    out s' = out s ++ new /\
    List.filter is_checkpointing new
    = block_checkpoints g blks (repeat (r s) (length blks)).
Proof.
  intros Hns. revert s. induction blks as [|blk blks IH]; intros s Hpos H.
  - inversion H; subst. repeat (split; [reflexivity|]).
    exists []. rewrite app_nil_r. auto.
  - cbn [for_] in H. apply bind_Ok in H as ([] & s1 & Hblock & H).
    rewrite (block_without_step g blk s Hns) in Hblock.
    inversion Hblock; subst s1; clear Hblock.
    inversion Hpos as [|? ? Hblk Hpos']; subst.
    apply IH in H as (Hr & Hg & Hm & new & Hout & Hfil); [|exact Hpos'].
    cbn in Hr, Hg, Hm, Hout, Hfil.
    repeat (split; [assumption|]).
    eexists. split; [rewrite Hout, <- !app_assoc; reflexivity|].
    cbn. rewrite Hfil, (block_tag_checkpoint_tag _ Hblk). reflexivity.
Qed.

(** With [nstep <= 0] no trial move is made: a run that returns leaves
    positions, counter and generator untouched, and still ends and
    checkpoints each of its blocks, every time with the initial
    configuration. *)
Theorem run_without_step g s s' :
  (nstep g <= 0)%Z ->
  simulate fast_m slow_m rtv g s = (Ok tt, s') ->
  r s' = r s /\ gen s' = gen s /\ moves s' = moves s /\
  exists new,
    out s' = out s ++ new /\
    List.filter is_checkpointing new
    = block_checkpoints g (range_from 1 (nblock g + 1))
        (repeat (r s) (Z.to_nat (nblock g)))
      ++ [checkpoint g out_tag (r s)].
Proof.
  intros Hns H. apply simulate_inv in H as (s3 & _ & Hblocks & _ & ->).
  apply blocks_without_step in Hblocks
    as (Hr & Hg & Hm & new & Hout & Hfil);
    [|exact Hns|apply range_from_nonneg; lia].
  cbn in Hr, Hg, Hm, Hout |- *.
  repeat (split; [assumption|]).
  eexists. split; [rewrite Hout, <- !app_assoc; reflexivity|].
  rewrite !List.filter_app, Hfil, range_from_length, Hr.
  cbn. do 3 f_equal. lia.
Qed.

Lemma block_tag_low blk :
  (0 <= blk < 1000)%Z -> int_of_tag (block_tag blk) = Some blk.
Proof.
  intros Hblk.
  assert (H : forallb
                (fun k => match int_of_tag (block_tag (Z.of_nat k)) with
                          | Some z => Z.eqb z (Z.of_nat k)
                          | None => false
                          end)
                (seq 0 1000) = true) by (vm_compute; reflexivity).
  rewrite forallb_forall in H.
  specialize (H (Z.to_nat blk)). rewrite Z2Nat.id in H by lia.
  destruct (int_of_tag (block_tag blk)) as [z|].
  - f_equal. apply Z.eqb_eq, H, in_seq. lia.
  - discriminate H. apply in_seq. lia.
Qed.

Lemma block_tag_high blk :
  (1000 <= blk)%Z ->
  block_tag blk = "sav"%string /\ int_of_tag (block_tag blk) = None.
Proof.
  intros Hblk. unfold block_tag.
  destruct (blk <? 1000)%Z eqn:E; [apply Z.ltb_lt in E; lia|].
  split; reflexivity.
Qed.

(** The tag of a block below 1000 reads back as the block's number, so
    that these blocks are checkpointed in files of their own; from 1000 on
    every block is checkpointed under the one tag "sav", which is no
    number. *)
Theorem block_tags_read_back :
  (forall blk, (0 <= blk < 1000)%Z -> int_of_tag (block_tag blk) = Some blk) /\
  (forall blk, (1000 <= blk)%Z ->
     block_tag blk = "sav"%string /\ int_of_tag (block_tag blk) = None) /\
  (forall b1 b2, (0 <= b1 < 1000)%Z -> (0 <= b2)%Z ->
     block_tag b1 = block_tag b2 -> b1 = b2).
Proof.
  split; [exact block_tag_low|]. split; [exact block_tag_high|].
  intros b1 b2 H1 H2 E.
  pose proof (block_tag_low b1 H1) as R1. rewrite E in R1.
  destruct (Z_lt_le_dec b2 1000) as [Hlt|Hge].
  - rewrite (block_tag_low b2) in R1 by lia. now inversion R1.
  - destruct (block_tag_high b2 Hge) as [_ R2]. congruence.
Qed.

End RunMore.

(** [samples_per_run] at the example: two blocks of one step. *)
Lemma samples_per_run_witness :
  exists s' new,
    simulate HS HS Spec.random_translate_vector g_short s_example
    = (Ok tt, s') /\
    out s' = new /\ length (List.filter is_blk_add new) = 2%nat.
Proof.
  destruct (simulate HS HS Spec.random_translate_vector g_short s_example)
    as [res s'] eqn:Hrun.
  assert (Hres : res = Ok tt).
  { apply (f_equal fst) in Hrun. vm_compute in Hrun. now symmetry. }
  subst res.
  destruct (samples_per_run HS HS Spec.random_translate_vector g_short
              s_example s' Hrun) as (new & Hout & Hcount).
  exists s', new. split; [reflexivity|]. split; [exact Hout|exact Hcount].
Defined.

(** [run_without_block] at the example. *)
Lemma run_without_block_witness :
  exists s',
    simulate HS HS Spec.random_translate_vector g_no_block s_example
    = (Ok tt, s') /\
    r s' = r s_example /\ length (out s') = 8%nat.
Proof.
  eexists. split.
  - apply (run_without_block HS HS Spec.random_translate_vector g_no_block
             s_example);
      [ vm_compute; discriminate | vm_compute; reflexivity
      | vm_compute; discriminate | vm_compute; discriminate
      | vm_compute; discriminate ].
  - split; reflexivity.
Defined.

(** [run_without_step] at the example: two blocks, three copies of the
    initial configuration. *)
Lemma run_without_step_witness :
  exists s',
    simulate HS HS Spec.random_translate_vector g_no_step s_example
    = (Ok tt, s') /\
    r s' = r s_example /\
    List.filter is_checkpointing (out s') =
      [ Ev_blk_end 1; checkpoint g_no_step "001" (r s_example);
        Ev_blk_end 2; checkpoint g_no_step "002" (r s_example);
        checkpoint g_no_step "out" (r s_example) ].
Proof.
  destruct (simulate HS HS Spec.random_translate_vector g_no_step s_example)
    as [res s'] eqn:Hrun.
  assert (Hres : res = Ok tt).
  { apply (f_equal fst) in Hrun. vm_compute in Hrun. now symmetry. }
  subst res.
  destruct (run_without_step HS HS Spec.random_translate_vector g_no_step
              s_example s') as (Hr & _ & _ & new & Hout & Hfil);
    [vm_compute; discriminate | exact Hrun |].
  exists s'. split; [reflexivity|]. split; [exact Hr|].
  rewrite Hout. exact Hfil.
Defined.

(** [block_tags_read_back] at block 7 and at block 1234. *)
Lemma block_tags_read_back_witness :
  int_of_tag (block_tag 7) = Some 7%Z /\
  block_tag 1234 = "sav"%string /\
  (block_tag 7 = block_tag 1234 -> 7%Z = 1234%Z).
Proof.
  destruct block_tags_read_back as (Hlow & Hhigh & Hinj).
  split; [apply Hlow; lia|]. split; [apply Hhigh; lia|].
  apply Hinj; lia.
Defined.

(** ** The files a run writes *)

Section TraceMore.
Context {rng : Type} (fast_m slow_m : hs_module).
Context (rtv : Q -> vec -> rng -> vec * rng).
Context (reader : string -> result (Z * Q * list vec)).
Implicit Types (s t : state rng) (g : globals).

(** [P] holds of every event that is no write, and of the checkpoint of
    every block. *)
Variable P : event -> Prop.
Variable tr0 : list event.
Hypothesis P_other : forall e, is_write e = false -> P e.
Hypothesis P_block :
  forall blk n' b' cur,
    (0 <= blk)%Z ->
    P (Ev_write_cnf_atoms (cnf_prefix ++ block_tag blk) n' b' cur).

Local Notation "'Tr'" :=
  (fun t : state rng => exists new, out t = tr0 ++ new /\ Forall P new).

Lemma tr_ext t t' (evs : list event) :
  Tr t -> out t' = out t ++ evs -> Forall P evs -> Tr t'.
Proof.
  intros (new & Hout & Hall) Ho He. exists (new ++ evs).
  rewrite Ho, Hout, <- app_assoc. split; [reflexivity|].
  apply Forall_app. auto.
Qed.

Lemma tr_same t t' : Tr t -> out t' = out t -> Tr t'.
Proof.
  intros Ht Ho. apply (tr_ext t t' [] Ht); [now rewrite app_nil_r|constructor].
Qed.

Lemma step_tr g t :
  Tr t -> wp (step fast_m slow_m rtv g) (fun _ => Tr) (fun _ => Tr) t.
Proof.
  intros Ht. unfold step. rewrite wp_bind, wp_modify, wp_bind.
  assert (Hsweep : wp (sweep fast_m slow_m rtv g)
                     (fun _ t' => out t' = out t) (fun _ t' => out t' = out t)
                     (set_moves 0 t)).
  { apply wp_of_run. intros res t' H. unfold sweep in H.
    apply moves_frame in H as (Ho & _). destruct res; exact Ho. }
  eapply wp_mono; [exact Hsweep| |].
  2:{ cbn beta. intros _ t1 Ho. now apply (tr_same t). }
  cbn beta. intros _ t1 Ho.
  assert (H1 : Tr t1) by now apply (tr_same t).
  rewrite wp_bind, wp_gets, wp_bind, wp_lift.
  destruct (pydiv _ _) as [ratio|e]; [|exact H1].
  rewrite wp_bind, wp_modify, wp_bind.
  apply calculate_wp.
  - intros _. now apply (tr_same t1).
  - intros _. now apply (tr_same t1).
  - intros mval _ _ _ _ vars. cbn [after_calculate]. rewrite wp_emit.
    apply (tr_ext t1 _ [Ev_blk_add vars] H1); [reflexivity|].
    constructor; [now apply P_other|constructor].
Qed.

Lemma block_tr g blk t :
  (0 <= blk)%Z -> Tr t ->
  wp (block fast_m slow_m rtv g blk) (fun _ => Tr) (fun _ => Tr) t.
Proof.
  intros Hblk Ht. unfold block. rewrite wp_bind, wp_emit, wp_bind.
  eapply wp_mono;
    [apply (wp_for (fun t => Tr t) (fun _ => Tr));
       [intros _ u _ Hu; apply step_tr; exact Hu|]| |auto].
  - apply (tr_ext t _ [Ev_blk_begin] Ht); [reflexivity|].
    constructor; [now apply P_other|constructor].
  - cbn beta. intros _ t1 H1.
    rewrite wp_bind, wp_emit, wp_bind, wp_modify, wp_bind, wp_gets,
      wp_bind, wp_gets, wp_emit.
    eapply (tr_ext t1 _ [_; _] H1);
      [cbn; rewrite <- !app_assoc; reflexivity|].
    constructor; [now apply P_other|].
    constructor; [now apply P_block|constructor].
Qed.

Lemma simulate_tr g t :
  Tr t ->
  wp (simulate fast_m slow_m rtv g)
    (fun _ t' =>
       exists mid n' b' cur fa,
         out t' = tr0 ++ mid
                  ++ [Ev_write_cnf_atoms (cnf_prefix ++ out_tag) n' b' cur;
                      Ev_conclusion fa] /\
         Forall P mid)
    (fun _ => Tr) t.
Proof.
  intros Ht. unfold simulate.
  rewrite wp_bind, wp_gets, wp_bind, wp_assert.
  destruct (overlap _ _ _); cbn [negb]; [exact Ht|].
  rewrite wp_bind. apply calculate_wp; [intros _; exact Ht..|].
  intros mval _ _ _ _ vars. rewrite wp_bind, wp_emit, wp_bind.
  eapply wp_mono;
    [apply (wp_for (fun t => Tr t) (fun _ => Tr));
       [intros blk u Hin Hu; apply block_tr; [|exact Hu]|]| |auto].
  - unfold range_from in Hin. apply in_map_iff in Hin as (k & <- & _). lia.
  - eapply (tr_ext t _ [_; _; _] Ht);
      [cbn; rewrite <- !app_assoc; reflexivity|].
    repeat (constructor; [now apply P_other|]). constructor.
  - cbn beta. intros _ t2 H2. rewrite wp_bind, wp_emit, wp_bind.
    assert (H2' : Tr (set_out (out t2 ++ [Ev_run_end]) t2)).
    { apply (tr_ext t2 _ [Ev_run_end] H2); [reflexivity|].
      constructor; [now apply P_other|constructor]. }
    apply calculate_wp; [intros _; exact H2'..|].
    intros mval' _ _ _ _ vars'.
    match goal with
    | |- wp _ _ _ ?u =>
        assert (H3 : Tr u);
          [ eapply (tr_ext _ u [_; _] H2');
              [cbn; rewrite <- !app_assoc; reflexivity|];
            repeat (constructor; [now apply P_other|]); constructor
          | ]
    end.
    rewrite wp_bind, wp_gets, wp_bind, wp_assert.
    destruct (overlap _ _ _); cbn [negb]; [exact H3|].
    rewrite wp_bind, wp_emit, wp_emit.
    destruct H3 as (new & Hout & Hall).
    exists new. eexists _, _, _, _. split; [|exact Hall].
    cbn [out set_out] in *. rewrite Hout, <- !app_assoc. reflexivity.
Qed.

Lemma read_parameters_tr nml t :
  Tr t -> wp (read_parameters nml) (fun _ => Tr) (fun _ => Tr) t.
Proof.
  intros Ht. unfold read_parameters. rewrite wp_bind.
  eapply wp_mono;
    [apply (wp_for (fun t => Tr t) (fun _ => Tr)); [|exact Ht]| |auto].
  - intros [key val] u _ Hu. unfold check_item.
    destruct (dict_get defaults key) as [d|].
    + rewrite wp_assert. destruct (pytype_eqb _ _); exact Hu.
    + rewrite wp_emit. apply (tr_ext u _ [Ev_warning key] Hu); [reflexivity|].
      constructor; [now apply P_other|constructor].
  - cbn beta. intros _ u Hu. unfold as_int, as_float, as_bool.
    repeat (rewrite wp_bind;
            match goal with
            | |- wp (match ?v with _ => _ end) _ _ _ =>
                destruct v; try (rewrite wp_raise; exact Hu); rewrite wp_ret
            end).
    rewrite wp_ret. exact Hu.
Qed.

Lemma main_tr nml entropy s :
  out s = tr0 ->
  wp (main fast_m slow_m rtv reader nml entropy)
    (fun _ t' =>
       exists mid n' b' cur fa,
         out t' = tr0 ++ mid
                  ++ [Ev_write_cnf_atoms (cnf_prefix ++ out_tag) n' b' cur;
                      Ev_conclusion fa] /\
         Forall P mid)
    (fun _ => Tr) s.
Proof.
  intros Hs. unfold main.
  rewrite wp_bind, wp_modify, wp_bind, wp_emit, wp_bind, wp_emit, wp_bind.
  match goal with
  | |- wp _ _ _ ?u =>
      assert (H0 : Tr u);
        [ exists banner; cbn; rewrite Hs, <- !app_assoc;
          split; [reflexivity|];
          repeat (constructor; [now apply P_other|]); constructor
        | ]
  end.
  eapply wp_mono; [apply read_parameters_tr; exact H0| |auto].
  cbn beta. intros [[[[nb ns] dm] eb] fa] t1 H1. unfold load_and_run.
  rewrite wp_bind, wp_emit, wp_bind, wp_modify.
  do 4 (rewrite wp_bind, wp_emit).
  match goal with
  | |- wp _ _ _ ?u =>
      assert (H2 : Tr u);
        [ eapply (tr_ext t1 u [_; _; _; _; _] H1);
            [cbn; rewrite <- !app_assoc; reflexivity|];
          repeat (constructor; [now apply P_other|]); constructor
        | ]
  end.
  rewrite wp_bind, wp_lift.
  destruct (reader _) as [[[n0 box0] r0]|e]; [|exact H2].
  do 2 (rewrite wp_bind, wp_emit).
  match goal with
  | |- wp _ _ _ ?u =>
      assert (H3 : Tr u);
        [ eapply (tr_ext _ u [_; _] H2);
            [cbn; rewrite <- !app_assoc; reflexivity|];
          repeat (constructor; [now apply P_other|]); constructor
        | ]
  end.
  rewrite wp_bind, wp_lift.
  destruct (pydiv _ _) as [density|e]; [|exact H3].
  rewrite wp_bind, wp_emit, wp_bind, wp_modify, wp_bind, wp_gets,
    wp_bind, wp_modify.
  apply simulate_tr.
  eapply (tr_ext _ _ [_] H3); [reflexivity|].
  constructor; [now apply P_other|constructor].
Qed.

End TraceMore.

Section FilesWritten.
Context {rng : Type} (fast_m slow_m : hs_module).
Context (rtv : Q -> vec -> rng -> vec * rng).
Context (reader : string -> result (Z * Q * list vec)).
Implicit Types (s t : state rng) (g : globals).

Lemma prefix_inj (a b : string) :
  (cnf_prefix ++ a)%string = (cnf_prefix ++ b)%string -> a = b.
Proof. unfold cnf_prefix. cbn. intros H. now inversion H. Qed.

Lemma block_tag_not_word blk (w : string) :
  (0 <= blk)%Z -> int_of_tag w = None -> w <> "sav"%string ->
  block_tag blk <> w.
Proof.
  intros Hblk Hw Hsav E.
  destruct (Z_lt_le_dec blk 1000) as [Hlt|Hge].
  - rewrite <- E, block_tag_low in Hw by lia. discriminate.
  - destruct (block_tag_high blk Hge) as [Hs _]. congruence.
Qed.

Lemma block_write_not_inp_out e :
  block_write_only e ->
  ~ writes_to (cnf_prefix ++ inp_tag) e /\
  ~ writes_to (cnf_prefix ++ out_tag) e.
Proof.
  destruct e; cbn; try tauto.
  intros (blk & Hblk & ->). split; intros E; apply prefix_inj in E;
    revert E; apply block_tag_not_word; try assumption;
    try reflexivity; discriminate.
Qed.

(** Whatever the input and however the script ends, it never writes the
    file it reads, cnf.inp; and it writes cnf.out only when it ends
    normally, then as its last file. *)
Theorem files_written nml entropy s res s' :
  main fast_m slow_m rtv reader nml entropy s = (res, s') ->
  exists new,
    out s' = out s ++ new /\
    Forall (fun e => ~ writes_to (cnf_prefix ++ inp_tag) e) new /\
    (res <> Ok tt ->
     Forall (fun e => ~ writes_to (cnf_prefix ++ out_tag) e) new) /\
    (res = Ok tt ->
     exists mid n' b' cur fa,
       new = mid ++ [Ev_write_cnf_atoms (cnf_prefix ++ out_tag) n' b' cur;
                     Ev_conclusion fa] /\
       Forall (fun e => ~ writes_to (cnf_prefix ++ out_tag) e) mid).
Proof.
  intros H.
  assert (Hwp := main_tr fast_m slow_m rtv reader block_write_only (out s)).
  specialize (Hwp ltac:(intros e He; destruct e; try exact Logic.I;
                        discriminate)
                  ltac:(intros blk n' b' cur Hblk; exists blk; auto)
                  nml entropy s eq_refl).
  apply (wp_run _ _ _ _ _ _ Hwp) in H.
  destruct res as [[]|e].
  - destruct H as (mid & n' & b' & cur & fa & Hout & Hall).
    eexists. split; [exact Hout|]. split; [|split; [congruence|]].
    + apply Forall_app. split.
      * eapply Forall_impl; [exact Hall|].
        intros e He. now apply block_write_not_inp_out.
      * constructor; [|constructor; [|constructor]]; cbn; [|tauto].
        intros E. apply prefix_inj in E. discriminate.
    + intros _. exists mid, n', b', cur, fa. split; [reflexivity|].
      eapply Forall_impl; [exact Hall|].
      intros e He. now apply block_write_not_inp_out.
  - destruct H as (new & Hout & Hall).
    exists new. split; [exact Hout|]. split; [|split; [|discriminate]].
    + eapply Forall_impl; [exact Hall|].
      intros e' He. now apply block_write_not_inp_out.
    + intros _. eapply Forall_impl; [exact Hall|].
      intros e' He. now apply block_write_not_inp_out.
Qed.

End FilesWritten.

(** [files_written] at the example of the failing initial check: no
    file at all is written. *)
Lemma files_written_witness :
  exists res s' new,
    main HS HS Spec.random_translate_vector reader_corners nml_example
      (fun _ => 0) s_initial = (res, s') /\
    res <> Ok tt /\ out s' = new /\
    Forall (fun e => ~ writes_to "cnf.inp" e) new /\
    Forall (fun e => ~ writes_to "cnf.out" e) new.
Proof.
  destruct (main HS HS Spec.random_translate_vector reader_corners nml_example
              (fun _ => 0) s_initial) as [res s'] eqn:Hrun.
  assert (Hres : res <> Ok tt).
  { apply (f_equal fst) in Hrun. vm_compute in Hrun. rewrite <- Hrun.
    discriminate. }
  destruct (files_written HS HS Spec.random_translate_vector reader_corners
              nml_example (fun _ => 0) s_initial res s' Hrun)
    as (new & Hout & Hinp & Hfail & _).
  exists res, s', new. split; [reflexivity|]. split; [exact Hres|].
  split; [exact Hout|]. split; [exact Hinp|exact (Hfail Hres)].
Defined.

(** ** What is written lies in the box *)

Section WrittenCell.
Context {rng : Type} (fast_m slow_m : hs_module).
Context (rtv : Q -> vec -> rng -> vec * rng).
Context (reader : string -> result (Z * Q * list vec)).
Implicit Types (s t : state rng) (g : globals).

Lemma wp_conj {A} (m : M rng A) (Post Post' : A -> state rng -> Prop)
  (Exc Exc' : exn -> state rng -> Prop) s :
  wp m Post Exc s -> wp m Post' Exc' s ->
  wp m (fun a t => Post a t /\ Post' a t)
    (fun e t => Exc e t /\ Exc' e t) s.
Proof. unfold wp. destruct (m s) as [[a|e] t]; auto. Qed.

(** A coordinate in box units, times the box length. *)
Lemma scale_coordinate (b x : Q) : in_closed x -> in_cell b (x * b).
Proof.
  intros [Hlo Hhi]. unfold in_cell.
  apply Qabs_Qle_condition. rewrite Qabs_Qmult.
  assert (Hx : Qabs x <= 1 # 2) by (apply Qabs_Qle_condition; split; lra).
  apply Qle_trans with ((1 # 2) * Qabs b);
    [apply Qmult_le_compat_r; [exact Hx|apply Qabs_nonneg]|].
  apply Qle_lteq. right. field.
Qed.

Lemma scale_in_cell (b : Q) (cur : list vec) :
  Forall (vall in_closed) cur -> Forall (vall (in_cell b)) (scale b cur).
Proof.
  intros H. unfold scale.
  induction H as [|a cur (Hx & Hy & Hz) _ IH]; cbn [map]; constructor;
    [|exact IH].
  unfold vall, vmul_s, vmap. cbn [vx vy vz].
  split; [|split]; now apply scale_coordinate.
Qed.

Lemma other_in_cell (e : event) : is_write e = false -> written_in_cell e.
Proof. destruct e; cbn; intros H; try exact I; discriminate. Qed.

Section FromTrace.
Variable tr0 : list event.

Local Notation "'Tr'" :=
  (fun t : state rng =>
     exists new, out t = tr0 ++ new /\ Forall written_in_cell new).
Local Notation "'Cell'" :=
  (fun t : state rng => Forall (vall in_closed) (r t) /\ Tr t).

Lemma step_cell g t :
  Cell t -> wp (step fast_m slow_m rtv g) (fun _ => Cell) (fun _ => Cell) t.
Proof.
  intros [Hc Ht].
  eapply wp_mono;
    [apply wp_conj;
       [apply (step_keeps fast_m slow_m rtv g (Forall (vall in_closed))
                 (fun _ => True)); auto;
        intros cur i old ri Hcur _ _; now apply accept_closed
       |apply (step_tr fast_m slow_m rtv written_in_cell tr0 other_in_cell
                 g t Ht)]
    | |]; cbn beta.
  - intros _ u [Hu Hu']. auto.
  - intros e u [[Hu _] Hu']. auto.
Qed.

Lemma block_cell g blk t :
  Cell t ->
  wp (block fast_m slow_m rtv g blk) (fun _ => Cell) (fun _ => Cell) t.
Proof.
  intros [Hc Ht]. unfold block. rewrite wp_bind, wp_emit, wp_bind.
  eapply wp_mono;
    [apply (wp_for (fun t => Cell t) (fun _ => Cell));
       [intros _ u _ Hu; apply step_cell; exact Hu|]| |auto].
  - split; [exact Hc|].
    apply (tr_ext _ _ t _ [Ev_blk_begin] Ht); [reflexivity|].
    constructor; [exact I|constructor].
  - cbn beta. intros _ t1 [Hc1 H1].
    rewrite wp_bind, wp_emit, wp_bind, wp_modify, wp_bind, wp_gets,
      wp_bind, wp_gets, wp_emit.
    split; [exact Hc1|].
    eapply (tr_ext _ _ t1 _ [_; _] H1);
      [cbn; rewrite <- !app_assoc; reflexivity|].
    constructor; [exact I|].
    constructor; [|constructor]. cbn. now apply scale_in_cell.
Qed.

Lemma simulate_cell g t :
  Cell t ->
  wp (simulate fast_m slow_m rtv g) (fun _ => Cell) (fun _ => Cell) t.
Proof.
  intros [Hc Ht]. unfold simulate.
  rewrite wp_bind, wp_gets, wp_bind, wp_assert.
  destruct (overlap _ _ _); cbn [negb]; [split; assumption|].
  rewrite wp_bind. apply calculate_wp; [intros _; split; assumption..|].
  intros mval _ _ _ _ vars. rewrite wp_bind, wp_emit, wp_bind.
  eapply wp_mono;
    [apply (wp_for (fun t => Cell t) (fun _ => Cell));
       [intros blk u _ Hu; apply block_cell; exact Hu|]| |auto].
  - split; [exact Hc|].
    eapply (tr_ext _ _ t _ [_; _; _] Ht);
      [cbn; rewrite <- !app_assoc; reflexivity|].
    repeat (constructor; [exact I|]). constructor.
  - cbn beta. intros _ t2 [Hc2 H2]. rewrite wp_bind, wp_emit, wp_bind.
    assert (H2' : Tr (set_out (out t2 ++ [Ev_run_end]) t2)).
    { apply (tr_ext _ _ t2 _ [Ev_run_end] H2); [reflexivity|].
      constructor; [exact I|constructor]. }
    apply calculate_wp; [intros _; split; assumption..|].
    intros mval' _ _ _ _ vars'.
    match goal with
    | |- wp _ _ _ ?u =>
        assert (H3 : Tr u);
          [ eapply (tr_ext _ _ _ u [_; _] H2');
              [cbn; rewrite <- !app_assoc; reflexivity|];
            repeat (constructor; [exact I|]); constructor
          | ]
    end.
    rewrite wp_bind, wp_gets, wp_bind, wp_assert.
    cbn [after_calculate r set_out] in *.
    destruct (overlap _ _ _); cbn [negb]; [split; assumption|].
    rewrite wp_bind, wp_emit, wp_emit.
    split; [exact Hc2|].
    eapply (tr_ext _ _ _ _ [_; _] H3);
      [cbn; rewrite <- !app_assoc; reflexivity|].
    constructor; [|constructor; [exact I|constructor]].
    cbn. now apply scale_in_cell.
Qed.

Lemma main_cell nml entropy s :
  out s = tr0 ->
  wp (main fast_m slow_m rtv reader nml entropy)
    (fun _ => Tr) (fun _ => Tr) s.
Proof.
  intros Hs. unfold main.
  rewrite wp_bind, wp_modify, wp_bind, wp_emit, wp_bind, wp_emit, wp_bind.
  match goal with
  | |- wp _ _ _ ?u =>
      assert (H0 : Tr u);
        [ exists banner; cbn; rewrite Hs, <- !app_assoc;
          split; [reflexivity|];
          repeat (constructor; [exact I|]); constructor
        | ]
  end.
  eapply wp_mono;
    [apply (read_parameters_tr written_in_cell tr0 other_in_cell);
     exact H0| |auto].
  cbn beta. intros [[[[nb ns] dm] eb] fa] t1 H1. unfold load_and_run.
  rewrite wp_bind, wp_emit, wp_bind, wp_modify.
  do 4 (rewrite wp_bind, wp_emit).
  match goal with
  | |- wp _ _ _ ?u =>
      assert (H2 : Tr u);
        [ eapply (tr_ext _ _ t1 u [_; _; _; _; _] H1);
            [cbn; rewrite <- !app_assoc; reflexivity|];
          repeat (constructor; [exact I|]); constructor
        | ]
  end.
  rewrite wp_bind, wp_lift.
  destruct (reader _) as [[[n0 box0] r0]|e]; [|exact H2].
  do 2 (rewrite wp_bind, wp_emit).
  match goal with
  | |- wp _ _ _ ?u =>
      assert (H3 : Tr u);
        [ eapply (tr_ext _ _ _ u [_; _] H2);
            [cbn; rewrite <- !app_assoc; reflexivity|];
          repeat (constructor; [exact I|]); constructor
        | ]
  end.
  rewrite wp_bind, wp_lift.
  destruct (pydiv _ _) as [density|e]; [|exact H3].
  rewrite wp_bind, wp_emit, wp_bind, wp_modify, wp_bind, wp_gets,
    wp_bind, wp_modify.
  eapply wp_mono; [apply simulate_cell| |]; cbn beta.
  - split; [apply loaded_closed|].
    eapply (tr_ext _ _ _ _ [_] H3); [reflexivity|].
    constructor; [exact I|constructor].
  - intros _ u [_ Hu]. exact Hu.
  - intros e u [_ Hu]. exact Hu.
Qed.

End FromTrace.

(** Every configuration the script writes, the checkpoint of each block
    and cnf.out alike, lies in the cell of the box written with it,
    centred at the origin: each coordinate is between [-|box|/2] and
    [|box|/2].  This holds for every parameter input, every configuration
    read and every hard-sphere module, and however the script ends. *)
Theorem written_positions_in_cell nml entropy s res s' :
  main fast_m slow_m rtv reader nml entropy s = (res, s') ->
  exists new, out s' = out s ++ new /\ Forall written_in_cell new.
Proof.
  intros H.
  pose proof (main_cell (out s) nml entropy s eq_refl) as Hwp.
  apply (wp_run _ _ _ _ _ _ Hwp) in H. destruct res; exact H.
Qed.

End WrittenCell.

(** [written_positions_in_cell] at the example: the checkpoints of the
    blocks and cnf.out. *)
Lemma written_positions_in_cell_witness :
  exists s' new,
    main HS HS Spec.random_translate_vector reader_example nml_example
      (fun _ => 1 # 3) s_initial = (Ok tt, s') /\
    out s' = new /\ Forall written_in_cell new.
Proof.
  destruct (main HS HS Spec.random_translate_vector reader_example
              nml_example (fun _ => 1 # 3) s_initial) as [res s'] eqn:Hrun.
  assert (Hres : res = Ok tt).
  { apply (f_equal fst) in Hrun. vm_compute in Hrun. now symmetry. }
  subst res.
  destruct (written_positions_in_cell HS HS Spec.random_translate_vector
              reader_example nml_example (fun _ => 1 # 3) s_initial (Ok tt)
              s' Hrun) as (new & Hout & Hall).
  exists s', new. split; [reflexivity|]. split; [exact Hout|exact Hall].
Defined.

(** ** The flag [fast] *)

Section ModuleChoice.
Context {rng : Type}.
Context (rtv : Q -> vec -> rng -> vec * rng).
Implicit Types (s t : state rng) (g : globals) (fa fb sa sb : hs_module).

Lemma bind_ext {A B} (m m' : M rng A) (k k' : A -> M rng B) s :
  m s = m' s -> (forall a t, k a t = k' a t) -> bind m k s = bind m' k' s.
Proof.
  intros Hm Hk. unfold bind. rewrite Hm.
  destruct (m' s) as [[a|e] t]; [apply Hk|reflexivity].
Qed.

Lemma for_ext {A} (l : list A) (body body' : A -> M rng unit) s :
  (forall x t, body x t = body' x t) -> for_ l body s = for_ l body' s.
Proof.
  intros H. revert s. induction l as [|x l IH]; intros s; [reflexivity|].
  cbn [for_]. apply bind_ext; [apply H|]. intros _ t. apply IH.
Qed.

Lemma calculate_ext fa sa fb sb g string s :
  hs fa sa g = hs fb sb g ->
  calculate fa sa g string s = calculate fb sb g string s.
Proof. intros E. unfold calculate. now rewrite E. Qed.

Lemma move_atom_ext fa sa fb sb g i s :
  hs fa sa g = hs fb sb g ->
  move_atom fa sa rtv g i s = move_atom fb sb rtv g i s.
Proof. intros E. unfold move_atom. now rewrite E. Qed.

Lemma step_ext fa sa fb sb g s :
  hs fa sa g = hs fb sb g ->
  step fa sa rtv g s = step fb sb rtv g s.
Proof.
  intros E. unfold step, sweep.
  apply bind_ext; [reflexivity|]. intros _ t.
  apply bind_ext; [apply for_ext; intros; now apply move_atom_ext|].
  intros _ t1. apply bind_ext; [reflexivity|]. intros mv t2.
  apply bind_ext; [reflexivity|]. intros ratio t3.
  apply bind_ext; [reflexivity|]. intros _ t4.
  apply bind_ext; [now apply calculate_ext|reflexivity].
Qed.

Lemma block_ext fa sa fb sb g blk s :
  hs fa sa g = hs fb sb g ->
  block fa sa rtv g blk s = block fb sb rtv g blk s.
Proof.
  intros E. unfold block.
  apply bind_ext; [reflexivity|]. intros _ t.
  apply bind_ext; [apply for_ext; intros; now apply step_ext|reflexivity].
Qed.

Lemma simulate_ext fa sa fb sb g s :
  hs fa sa g = hs fb sb g ->
  simulate fa sa rtv g s = simulate fb sb rtv g s.
Proof.
  intros E. unfold simulate. rewrite E.
  apply bind_ext; [reflexivity|]. intros cur t.
  apply bind_ext; [reflexivity|]. intros _ t1.
  apply bind_ext; [now apply calculate_ext|]. intros vars t2.
  apply bind_ext; [reflexivity|]. intros _ t3.
  apply bind_ext; [apply for_ext; intros; now apply block_ext|].
  intros _ t4. apply bind_ext; [reflexivity|]. intros _ t5.
  apply bind_ext; [now apply calculate_ext|reflexivity].
Qed.

(** The run consults one hard-sphere module only: with [fast] set,
    nothing of mc_hs_slow_module matters to it, and with [fast] unset,
    nothing of mc_hs_fast_module. *)
Theorem fast_selects_module fa sa other g s :
  (fast g = true ->
   simulate fa sa rtv g s = simulate fa other rtv g s) /\
  (fast g = false ->
   simulate fa sa rtv g s = simulate other sa rtv g s).
Proof.
  split; intros Hf; apply simulate_ext; unfold hs; now rewrite Hf.
Qed.

End ModuleChoice.

(** [fast_selects_module] at the example: with [fast] set, a slow module
    that sees overlaps everywhere changes nothing. *)
Lemma fast_selects_module_witness :
  simulate HS HS Spec.random_translate_vector g_short s_example =
  simulate HS (HsModule (fun _ _ => true) (fun _ _ _ => true) (fun _ _ => 7%Z))
    Spec.random_translate_vector g_short s_example.
Proof.
  destruct (fast_selects_module Spec.random_translate_vector HS HS
              (HsModule (fun _ _ => true) (fun _ _ _ => true) (fun _ _ => 7%Z))
              g_short s_example) as [Hfast _].
  apply Hfast. reflexivity.
Defined.
